(** * binance-funding-hedge: the exchange client of [main.py]

    A shallow embedding of [BinanceBot] and of the [main] workflow.

    - Python [str] is a byte string ([string]); [.encode('utf-8')] is then
      the identity.
    - Python [float] is IEEE 754 binary64, modelled by [spec_float] with
      precision 53 and maximal exponent 1024.
    - A Python [dict] keeps insertion order: it is an association list.
    - [hashlib.sha256] and [hmac.new] follow FIPS 180-4 and RFC 2104.
    - What the process cannot decide by itself (the clock, the exchange's
      answers, the credential store, the text forms of floats) is gathered
      in the class [Env]. *)

From Stdlib Require Import List String Ascii Bool ZArith NArith Lia.
From Stdlib Require Import Floats.SpecFloat.
Import ListNotations.

Local Open Scope string_scope.

(* ================================================================== *)
(** * Byte strings *)

Module Bytes.

Definition of_string (s : string) : list N :=
  map N_of_ascii (list_ascii_of_string s).

Definition hex_digit (n : N) : ascii :=
  match n with
  | 0%N => "0" | 1%N => "1" | 2%N => "2" | 3%N => "3"
  | 4%N => "4" | 5%N => "5" | 6%N => "6" | 7%N => "7"
  | 8%N => "8" | 9%N => "9" | 10%N => "a" | 11%N => "b"
  | 12%N => "c" | 13%N => "d" | 14%N => "e" | _ => "f"
  end%char.

(** Two lowercase hexadecimal digits of one byte. *)
Definition hex_byte (b : N) (rest : string) : string :=
  String (hex_digit (N.shiftr b 4 mod 16))
    (String (hex_digit (b mod 16)) rest).

(** The four bytes of a 32-bit word, most significant first. *)
Definition be32 (w : N) : list N :=
  [N.shiftr w 24 mod 256; N.shiftr w 16 mod 256;
   N.shiftr w 8 mod 256; w mod 256]%N.

Definition hex_word (w : N) (rest : string) : string :=
  fold_right hex_byte rest (be32 w).

End Bytes.

(* ================================================================== *)
(** * SHA-256 (FIPS 180-4), as [hashlib.sha256] computes it *)

Module SHA256.

Local Open Scope N_scope.

Definition mask32 : N := 0xFFFFFFFF.
Definition wrap (x : N) : N := N.land x mask32.
Definition add32 (x y : N) : N := wrap (x + y).
Definition not32 (x : N) : N := N.lxor (wrap x) mask32.
Definition rotr (n x : N) : N :=
  N.lor (N.shiftr x n) (wrap (N.shiftl x (32 - n))).

Definition Ch (x y z : N) := N.lxor (N.land x y) (N.land (not32 x) z).
Definition Maj (x y z : N) :=
  N.lxor (N.lxor (N.land x y) (N.land x z)) (N.land y z).
Definition Sigma0 x := N.lxor (N.lxor (rotr 2 x) (rotr 13 x)) (rotr 22 x).
Definition Sigma1 x := N.lxor (N.lxor (rotr 6 x) (rotr 11 x)) (rotr 25 x).
Definition sigma0 x := N.lxor (N.lxor (rotr 7 x) (rotr 18 x)) (N.shiftr x 3).
Definition sigma1 x := N.lxor (N.lxor (rotr 17 x) (rotr 19 x)) (N.shiftr x 10).

(** The first 64 primes. *)
Definition is_prime (n : N) : bool :=
  forallb (fun d => negb (n mod N.of_nat d =? 0)) (seq 2 (N.to_nat n - 2)).

Definition primes : list N :=
  Eval vm_compute in filter is_prime (map N.of_nat (seq 2 310)).

(** The integer cube root, one bit at a time from the top. *)
Definition cube_root (n : N) : N :=
  fold_left (fun r b => let c := r + N.shiftl 1 (N.of_nat b) in
                        if c * c * c <=? n then c else r)
            (rev (seq 0 40)) 0.

(** The round constants: the first 32 bits of the fractional parts of the
    cube roots of the first 64 primes. *)
Definition K : list N :=
  Eval vm_compute in map (fun p => wrap (cube_root (N.shiftl p 96))) primes.

Record state := mkState { ha : N; hb : N; hc : N; hd : N;
                          he : N; hf : N; hg : N; hh : N }.

(** The initial hash value: the first 32 bits of the fractional parts of the
    square roots of the first 8 primes. *)
Definition root_bits (p : N) : N := wrap (N.sqrt (N.shiftl p 64)).

Definition initial : state :=
  Eval vm_compute in
    mkState (root_bits 2) (root_bits 3) (root_bits 5) (root_bits 7)
            (root_bits 11) (root_bits 13) (root_bits 17) (root_bits 19).

(** Padding: one bit 1, zeros up to 56 modulo 64, the bit length on 8 bytes. *)
Definition be64 (n : N) : list N :=
  map (fun i => N.shiftr n (8 * i) mod 256) [7; 6; 5; 4; 3; 2; 1; 0].

Definition pad (msg : list N) : list N :=
  let len := List.length msg in
  let zeros := ((64 - (len + 9) mod 64) mod 64)%nat in
  msg ++ 0x80 :: repeat 0 zeros ++ be64 (8 * N.of_nat len).

(** Big-endian words of a byte sequence; [fuel] bounds the number of words. *)
Fixpoint words (fuel : nat) (bs : list N) : list N :=
  match fuel, bs with
  | S fuel', b0 :: b1 :: b2 :: b3 :: rest =>
      (N.shiftl b0 24 + N.shiftl b1 16 + N.shiftl b2 8 + b3)
        :: words fuel' rest
  | _, _ => []
  end.

(** Message schedule: [prev] holds the words so far, most recent first. *)
Fixpoint extend (n : nat) (prev : list N) : list N :=
  match n with
  | O => prev
  | S n' =>
      let w := add32 (add32 (sigma1 (nth 1 prev 0)) (nth 6 prev 0))
                     (add32 (sigma0 (nth 14 prev 0)) (nth 15 prev 0)) in
      extend n' (w :: prev)
  end.

Definition schedule (block : list N) : list N :=
  rev (extend 48 (rev block)).

Definition round (s : state) (kw : N * N) : state :=
  let '(k, w) := kw in
  let t1 := add32 (add32 (add32 (hh s) (Sigma1 (he s)))
                         (add32 (Ch (he s) (hf s) (hg s)) k)) w in
  let t2 := add32 (Sigma0 (ha s)) (Maj (ha s) (hb s) (hc s)) in
  mkState (add32 t1 t2) (ha s) (hb s) (hc s)
          (add32 (hd s) t1) (he s) (hf s) (hg s).

Definition compress (s : state) (block : list N) : state :=
  let r := fold_left round (combine K (schedule block)) s in
  mkState (add32 (ha s) (ha r)) (add32 (hb s) (hb r))
          (add32 (hc s) (hc r)) (add32 (hd s) (hd r))
          (add32 (he s) (he r)) (add32 (hf s) (hf r))
          (add32 (hg s) (hg r)) (add32 (hh s) (hh r)).

Fixpoint blocks (fuel : nat) (ws : list N) : list (list N) :=
  match fuel, ws with
  | S fuel', _ :: _ => firstn 16 ws :: blocks fuel' (skipn 16 ws)
  | _, _ => []
  end.

Definition digest_state (msg : list N) : state :=
  let padded := pad msg in
  let ws := words (List.length padded) padded in
  fold_left compress (blocks (List.length ws) ws) initial.

Definition state_words (s : state) : list N :=
  [ha s; hb s; hc s; hd s; he s; hf s; hg s; hh s].

(** [hashlib.sha256(msg).digest()] *)
Definition digest (msg : list N) : list N :=
  flat_map Bytes.be32 (state_words (digest_state msg)).

(** [hashlib.sha256(msg).hexdigest()] *)
Definition hexdigest (msg : list N) : string :=
  fold_right Bytes.hex_word EmptyString (state_words (digest_state msg)).

End SHA256.

(* ================================================================== *)
(** * HMAC (RFC 2104) over SHA-256, as [hmac.new(key, msg, hashlib.sha256)] *)

Module HMAC.

Local Open Scope N_scope.

Definition block_size : nat := 64.

Definition block_key (key : list N) : list N :=
  let k := if Nat.ltb block_size (List.length key)
           then SHA256.digest key else key in
  k ++ repeat 0 (block_size - List.length k)%nat.

Definition xor_with (c : N) (bs : list N) : list N := map (N.lxor c) bs.

Definition inner (key msg : list N) : list N :=
  SHA256.digest (xor_with 0x36 (block_key key) ++ msg).

(** [hmac.new(key, msg, hashlib.sha256).hexdigest()] *)
Definition hexdigest (key msg : list N) : string :=
  SHA256.hexdigest (xor_with 0x5c (block_key key) ++ inner key msg).

End HMAC.

(* ================================================================== *)
(** * Python floats: IEEE 754 binary64 *)

Module F64.

Local Open Scope Z_scope.

Definition prec : Z := 53.
Definition emax : Z := 1024.

Definition float := spec_float.

Definition zero : float := S754_zero false.

(** The float nearest to the fraction [n / d] (ties to even), with sign [s]. *)
Definition of_ratio (s : bool) (n d : positive) : float :=
  let '(q, e, l) := SFdiv_core_binary prec emax (Zpos n) 0 (Zpos d) 0 in
  binary_round_aux prec emax s q e l.

(** The float nearest to [m * 10^e]: how Python reads a decimal literal
    and how [float()] reads decimal text. *)
Definition of_decimal (s : bool) (m : Z) (e : Z) : float :=
  match m with
  | Z0 => S754_zero s
  | Zneg _ => S754_nan
  | Zpos p =>
      match e with
      | Zneg k => of_ratio s p (Pos.pow 10 k)
      | _ => match m * 10 ^ e with
             | Zpos n => binary_round prec emax s n 0
             | _ => S754_nan
             end
      end
  end.

(** [float(n)] for a Python [int]: [None] is [OverflowError]. *)
Definition of_int (n : Z) : option float :=
  match binary_normalize prec emax n 0 false with
  | S754_infinity _ => None
  | f => Some f
  end.

(** Python's [a < b], [a > b], [a != b] and [abs(a)] on floats. *)
Definition lt (a b : float) : bool := SFltb a b.
Definition gt (a b : float) : bool := SFltb b a.
Definition ne (a b : float) : bool := negb (SFeqb a b).
Definition abs (a : float) : float := SFabs a.
Definition neg (a : float) : float := SFopp a.

Definition is_zero (a : float) : bool :=
  match a with S754_zero _ => true | _ => false end.

Definition is_nan (a : float) : bool :=
  match a with S754_nan => true | _ => false end.

(** The sign bit; a NaN is given none. *)
Definition sign_bit (a : float) : bool :=
  match a with
  | S754_zero s | S754_infinity s | S754_finite s _ _ => s
  | S754_nan => false
  end.

End F64.

(* ================================================================== *)
(** * Python values, as [response.json()] and the request parameters hold them *)

#[warnings="-register-all"]
Inductive value :=
| VNone
| VBool (b : bool)
| VInt (n : Z)
| VFloat (f : F64.float)
| VStr (s : string)
| VList (items : list value)
| VDict (entries : list (string * value)).

(** The exceptions this program can meet. *)
Inductive exn :=
| KeyError (key : string)
| TypeError
| AttributeError
| ValueError
| OverflowError.

Inductive result (A : Type) :=
| Ok (a : A)
| Raise (e : exn).

Arguments Ok {A} a.
Arguments Raise {A} e.

(** A [dict] in insertion order. *)
Module Dict.

Definition t := list (string * value).

Fixpoint get (k : string) (d : t) : option value :=
  match d with
  | [] => None
  | (k', v) :: rest => if String.eqb k k' then Some v else get k rest
  end.

(** [d[k] = v]: an existing key keeps its place, a new one goes last. *)
Fixpoint set (k : string) (v : value) (d : t) : t :=
  match d with
  | [] => [(k, v)]
  | (k', v') :: rest =>
      if String.eqb k k' then (k', v) :: rest else (k', v') :: set k v rest
  end.

Definition keys (d : t) : list string := map fst d.

Definition has (k : string) (d : t) : bool :=
  match get k d with Some _ => true | None => false end.

End Dict.

Module Py.

(** [bool(v)] *)
Definition truthy (v : value) : bool :=
  match v with
  | VNone => false
  | VBool b => b
  | VInt n => negb (Z.eqb n 0)
  | VFloat f => F64.ne f F64.zero
  | VStr s => negb (String.eqb s "")
  | VList l => match l with [] => false | _ => true end
  | VDict d => match d with [] => false | _ => true end
  end.

(** [v[key]] for a string key. *)
Definition subscript (v : value) (key : string) : result value :=
  match v with
  | VDict d =>
      match Dict.get key d with
      | Some x => Ok x
      | None => Raise (KeyError key)
      end
  | _ => Raise TypeError
  end.

(** [v.get(key, default)] *)
Definition get (v : value) (key : string) (default : value) : result value :=
  match v with
  | VDict d =>
      match Dict.get key d with
      | Some x => Ok x
      | None => Ok default
      end
  | _ => Raise AttributeError
  end.

(** [v == s] for a string literal [s]. *)
Definition eq_str (v : value) (s : string) : bool :=
  match v with
  | VStr t => String.eqb t s
  | _ => false
  end.

(** [for x in v] *)
Definition iter (v : value) : result (list value) :=
  match v with
  | VList l => Ok l
  | VDict d => Ok (map VStr (Dict.keys d))
  | VStr s => Ok (map (fun c => VStr (String c EmptyString))
                      (list_ascii_of_string s))
  | _ => Raise TypeError
  end.

Definition upper_ascii (c : ascii) : ascii :=
  let n := nat_of_ascii c in
  if andb (Nat.leb 97 n) (Nat.leb n 122) then ascii_of_nat (n - 32) else c.

(** [s.upper()] on ASCII text. *)
Fixpoint upper (s : string) : string :=
  match s with
  | EmptyString => EmptyString
  | String c rest => String (upper_ascii c) (upper rest)
  end.

(** [sep.join(items)], built left to right. *)
Definition join (sep : string) (items : list string) : string :=
  snd (fold_left
         (fun (acc : bool * string) (item : string) =>
            let (first, text) := acc in
            (false, if first then item else text ++ sep ++ item))
         items (true, "")).

Definition digit_char (d : Z) : ascii := ascii_of_N (48 + Z.to_N d).

Fixpoint digits_of (fuel : nat) (n : Z) (acc : string) : string :=
  match fuel with
  | O => acc
  | S fuel' =>
      let acc' := String (digit_char (n mod 10)) acc in
      if Z.ltb n 10 then acc' else digits_of fuel' (n / 10) acc'
  end.

(** [str(n)] for an [int]. *)
Definition str_int (n : Z) : string :=
  let a := Z.abs n in
  let ds := digits_of (S (Z.to_nat (Z.log2 a))) a "" in
  if Z.ltb n 0 then String "-" ds else ds.

End Py.

(* ================================================================== *)
(** * Text forms of floats on ASCII text *)
Module Text.

Local Open Scope Z_scope.

Definition is_space (c : ascii) : bool :=
  let n := N_of_ascii c in
  orb (andb (N.leb 9 n) (N.leb n 13))
      (orb (andb (N.leb 28 n) (N.leb n 31)) (N.eqb n 32)).

Fixpoint lstrip (s : list ascii) : list ascii :=
  match s with
  | c :: rest => if is_space c then lstrip rest else s
  | [] => []
  end.

Definition strip (s : list ascii) : list ascii :=
  rev (lstrip (rev (lstrip s))).

Definition digit_of (c : ascii) : option Z :=
  let n := N_of_ascii c in
  if andb (N.leb 48 n) (N.leb n 57) then Some (Z.of_N n - 48) else None.

Definition lower (c : ascii) : ascii :=
  let n := nat_of_ascii c in
  if andb (Nat.leb 65 n) (Nat.leb n 90) then ascii_of_nat (n + 32) else c.

(** A run of digits, single underscores allowed between two digits:
    the digits read, their count, and what follows. *)
Fixpoint digit_run (s : list ascii) (acc : Z) (count : Z)
  : Z * Z * list ascii :=
  match s with
  | c :: rest =>
      match digit_of c with
      | Some d => digit_run rest (10 * acc + d) (count + 1)
      | None =>
          match rest with
          | c' :: _ =>
              if andb (Ascii.eqb c "_")
                      (andb (0 <? count)
                            (match digit_of c' with Some _ => true | None => false end))
              then digit_run rest acc count
              else (acc, count, s)
          | [] => (acc, count, s)
          end
      end
  | [] => (acc, count, s)
  end.

Definition sign_of (s : list ascii) : bool * list ascii :=
  match s with
  | "-"%char :: rest => (true, rest)
  | "+"%char :: rest => (false, rest)
  | _ => (false, s)
  end.

(** The exponent part: [None] when malformed. *)
Definition exponent (s : list ascii) : option Z :=
  match s with
  | [] => Some 0
  | c :: rest =>
      if Ascii.eqb (lower c) "e" then
        let (neg, rest') := sign_of rest in
        match digit_run rest' 0 0 with
        | (e, n, []) => if 0 <? n then Some (if neg then - e else e) else None
        | _ => None
        end
      else None
  end.

Definition number (neg : bool) (s : list ascii) : option F64.float :=
  let '(ip, ni, after_int) := digit_run s 0 0 in
  let '(m, nf, after_frac) :=
    match after_int with
    | "."%char :: rest => digit_run rest ip 0
    | _ => (ip, 0, after_int)
    end in
  if (0 <? ni + nf) then
    match exponent after_frac with
    | Some e => Some (F64.of_decimal neg m (e - nf))
    | None => None
    end
  else None.

(** [float(s)] on ASCII text; [None] is [ValueError]. *)
Definition parse_float (s : string) : option F64.float :=
  let (neg, body) := sign_of (strip (list_ascii_of_string s)) in
  let word := string_of_list_ascii (map lower body) in
  if orb (String.eqb word "inf") (String.eqb word "infinity")
  then Some (S754_infinity neg)
  else if String.eqb word "nan" then Some S754_nan
  else number neg body.

(** ** [repr] of a float: the shortest digits that read back the same *)

(** [10^p <= n / d] *)
Definition pow10_le (p : Z) (n d : Z) : bool :=
  if 0 <=? p then d * 10 ^ p <=? n else d <=? n * 10 ^ (- p).

(** The decimal point position [p] of [n / d]: [10^(p-1) <= n/d < 10^p]. *)
Fixpoint point_from (fuel : nat) (p : Z) (n d : Z) : Z :=
  match fuel with
  | O => p
  | S fuel' => if pow10_le p n d then point_from fuel' (p + 1) n d else p
  end.

Definition point (n d : Z) : Z :=
  let guess := (Z.log2 n - Z.log2 d) * 30103 / 100000 in
  point_from 8 (guess - 2) n d.

(** [floor (n / d / 10^k)] and whether the division is exact or where the
    remainder lies with respect to one half. *)
Definition scaled (n d k : Z) : Z * comparison :=
  let (num, den) := if 0 <=? k then (n, d * 10 ^ k) else (n * 10 ^ (- k), d) in
  let q := num / den in
  (q, Z.compare (2 * (num - q * den)) den).

Definition reads_back (x : F64.float) (digits k : Z) : bool :=
  match SFcompare (F64.of_decimal false digits k) x with
  | Some Eq => true
  | _ => false
  end.

(** The best candidate with [n] digits, if one reads back as [x]. *)
Definition candidate (x : F64.float) (num den p : Z) (n : Z) : option (Z * Z) :=
  let k := p - n in
  let (q, half) := scaled num den k in
  let lo := reads_back x q k in
  let hi := reads_back x (q + 1) k in
  match lo, hi with
  | true, true =>
      match half with
      | Gt => Some (q + 1, k)
      | Lt => Some (q, k)
      | Eq => Some (if Z.even q then q else q + 1, k)
      end
  | true, false => Some (q, k)
  | false, true => Some (q + 1, k)
  | false, false => None
  end.

Fixpoint shortest (fuel : nat) (x : F64.float) (num den p : Z) (n : Z)
  : Z * Z :=
  match fuel with
  | O => (0, 0)
  | S fuel' =>
      match candidate x num den p n with
      | Some dk => dk
      | None => shortest fuel' x num den p (n + 1)
      end
  end.

Fixpoint strip_zeros (fuel : nat) (digits k : Z) : Z * Z :=
  match fuel with
  | O => (digits, k)
  | S fuel' =>
      if andb (digits mod 10 =? 0) (negb (digits =? 0))
      then strip_zeros fuel' (digits / 10) (k + 1)
      else (digits, k)
  end.

Definition zeros (n : Z) : string :=
  string_of_list_ascii (repeat "0"%char (Z.to_nat n)).

Definition two_digits (e : Z) : string :=
  if e <? 10 then "0" ++ Py.str_int e else Py.str_int e.

(** The layout of [repr]: exponent form below [1e-4] and from [1e16] on. *)
Definition layout (ds : string) (decpt : Z) : string :=
  let n := Z.of_nat (String.length ds) in
  if orb (decpt <=? -4) (16 <? decpt) then
    let mant :=
      match ds with
      | String c EmptyString => ds
      | String c rest => String c ("." ++ rest)
      | EmptyString => ds
      end in
    let e := decpt - 1 in
    mant ++ "e" ++ (if e <? 0 then "-" else "+") ++ two_digits (Z.abs e)
  else if decpt <=? 0 then "0." ++ zeros (- decpt) ++ ds
  else if decpt <? n then
    substring 0 (Z.to_nat decpt) ds ++ "."
      ++ substring (Z.to_nat decpt) (Z.to_nat (n - decpt)) ds
  else ds ++ zeros (decpt - n) ++ ".0".

(** [repr(x)] *)
Definition repr (x : F64.float) : string :=
  match x with
  | S754_nan => "nan"
  | S754_infinity s => if s then "-inf" else "inf"
  | S754_zero s => if s then "-0.0" else "0.0"
  | S754_finite s m e =>
      let (num, den) :=
        if 0 <=? e then (Zpos m * 2 ^ e, 1) else (Zpos m, 2 ^ (- e)) in
      let p := point num den in
      let (d0, k0) := shortest 17 (SFabs x) num den p 1 in
      let (d, k) := strip_zeros 20 d0 k0 in
      let ds := Py.str_int d in
      let body := layout ds (k + Z.of_nat (String.length ds)) in
      if s then "-" ++ body else body
  end.

End Text.

(* ================================================================== *)
(** * The world outside the process *)

Inductive http_method := GET | POST.

Record request := mkRequest {
  req_method : http_method;
  req_url : string;
  req_headers : list (string * string);
  req_params : option Dict.t
}.

Inductive log_level := INFO | WARNING | ERROR.

(** What the process does to the outside.  A line of log is recorded by its
    fixed text, without the values interpolated in it. *)
Inductive event :=
| Sent (r : request) (answer : option value)
| Slept (seconds : Z)
| Logged (level : log_level) (message : string).

(** What has happened so far: the number of clock readings and the trace. *)
Record world := mkWorld {
  reads : nat;
  trace : list event
}.

Definition start : world := mkWorld 0 [].

(** The environment of a run.
    - [float_of_str s] is [float(s)] on text, [None] for [ValueError];
      [repr_float] and [repr_container] are the text of a float and of a
      list or dict in an f-string.
    - [clock_ms n] is [int(time.time() * 1000)] at the reading number [n].
    - [exchange w r] is the JSON body of a 2xx answer to [r] sent in world
      [w], or [None] for what [requests] reports as a [RequestException].
    - [keyring_get_password] and [environ_get] are the credential store and
      the process environment. *)
Class Env := {
  float_of_str : string -> option F64.float;
  repr_float : F64.float -> string;
  repr_container : value -> string;
  clock_ms : nat -> Z;
  exchange : world -> request -> option value;
  keyring_get_password : string -> string -> option string;
  environ_get : string -> option string
}.

(** [float(v)] and [str(v)] need the text forms of floats. *)
Definition py_float `{Env} (v : value) : result F64.float :=
  match v with
  | VFloat f => Ok f
  | VInt n =>
      match F64.of_int n with
      | Some f => Ok f
      | None => Raise OverflowError
      end
  | VBool b => Ok (if b then SFone F64.prec F64.emax else F64.zero)
  | VStr s =>
      match float_of_str s with
      | Some f => Ok f
      | None => Raise ValueError
      end
  | _ => Raise TypeError
  end.

Definition py_str `{Env} (v : value) : string :=
  match v with
  | VStr s => s
  | VInt n => Py.str_int n
  | VBool b => if b then "True" else "False"
  | VNone => "None"
  | VFloat f => repr_float f
  | _ => repr_container v
  end.

(* ================================================================== *)
(** * Computations: a world threaded through, an exception or a value out *)

Definition M (A : Type) : Type := world -> result A * world.

Definition ret {A} (a : A) : M A := fun w => (Ok a, w).

Definition bind {A B} (m : M A) (k : A -> M B) : M B :=
  fun w =>
    match m w with
    | (Ok a, w') => k a w'
    | (Raise e, w') => (Raise e, w')
    end.

Definition lift {A} (r : result A) : M A := fun w => (r, w).

Definition emit (e : event) : M unit :=
  fun w => (Ok tt, mkWorld (reads w) (trace w ++ [e])).

Declare Scope py_scope.
Delimit Scope py_scope with py.
Notation "x <- m ;; k" := (bind m (fun x => k))
  (at level 61, m at next level, right associativity) : py_scope.
Notation "m ;;; k" := (bind m (fun _ => k))
  (at level 61, right associativity) : py_scope.

Local Open Scope py_scope.

(** [int(time.time() * 1000)] *)
Definition now_ms `{Env} : M Z :=
  fun w => (Ok (clock_ms (reads w)), mkWorld (S (reads w)) (trace w)).

(** [time.sleep(seconds)] *)
Definition sleep (seconds : Z) : M unit := emit (Slept seconds).

Definition log (level : log_level) (message : string) : M unit :=
  emit (Logged level message).

(* ================================================================== *)
(** * [class BinanceBot] *)

Record BinanceBot := mkBot {
  api_key : string;
  api_secret : string;
  base_url : string
}.

(** Python's [a or b] on an optional string. *)
Definition or_else (a b : option string) : option string :=
  match a with
  | Some s => if String.eqb s "" then b else a
  | None => b
  end.

(** [BinanceBot.__init__], lines 17-23: the credentials, the base URL and
    the test that raises [ValueError].  The credential store is one that
    answers (a string or [None]).  The set-up of the logger that follows the
    test (lines 25-33) opens the log file; [Ok] stands for a constructor
    that has passed the test and found the file writable. *)
Definition BinanceBot_init `{Env} (key secret url : option string)
  : result BinanceBot :=
  let k := or_else key (keyring_get_password "BINANCE_API_KEY" "BINANCE_API_KEY") in
  let s := or_else secret
             (keyring_get_password "BINANCE_API_SECRET" "BINANCE_API_SECRET") in
  let u := or_else url
             (match environ_get "BINANCE_BASE_URL" with
              | Some e => Some e
              | None => Some "https://fapi.binance.com"
              end) in
  match k, s with
  | Some k', Some s' =>
      if orb (String.eqb k' "") (String.eqb s' "") then Raise ValueError
      else Ok (mkBot k' s' (match u with Some u' => u' | None => "" end))
  | _, _ => Raise ValueError
  end.

Section Bot.

Context `{Env}.
Variable self : BinanceBot.

(** The list [[f"{key}={value}" for key, value in params.items()]]. *)
Definition pairs_text (params : Dict.t) : list string :=
  map (fun kv => fst kv ++ "=" ++ py_str (snd kv)) params.

Definition query_string (params : Dict.t) : string :=
  Py.join "&" (pairs_text params).

Definition _generate_signature (params : Dict.t) : string :=
  HMAC.hexdigest (Bytes.of_string (api_secret self))
                 (Bytes.of_string (query_string params)).

(** [requests.get] / [requests.post] followed by [raise_for_status()] and
    [json()]: the answer is recorded in the trace. *)
Definition send (r : request) : M (option value) :=
  fun w =>
    let answer := exchange w r in
    (Ok answer, mkWorld (reads w) (trace w ++ [Sent r answer])).

Definition _make_request (method endpoint : string)
           (params : option Dict.t) : M value :=
  let url := base_url self ++ endpoint in
  let headers := [("X-MBX-APIKEY", api_key self)] in
  verb <- lift (if String.eqb (Py.upper method) "GET" then Ok GET
                else if String.eqb (Py.upper method) "POST" then Ok POST
                else Raise ValueError) ;;
  answer <- send (mkRequest verb url headers params) ;;
  match answer with
  | Some json => ret json
  | None => log ERROR "Request failed" ;;; ret VNone
  end.

(** The filter of [get_positions], on one element. *)
Definition has_amount (position : value) : result bool :=
  match Py.get position "positionAmt" (VInt 0) with
  | Ok amt =>
      match py_float amt with
      | Ok f => Ok (F64.ne f F64.zero)
      | Raise e => Raise e
      end
  | Raise e => Raise e
  end.

(** [[x for x in xs if keep(x)]], where [keep] may raise. *)
Fixpoint filter_r (keep : value -> result bool) (xs : list value)
  : result (list value) :=
  match xs with
  | [] => Ok []
  | x :: rest =>
      match keep x with
      | Raise e => Raise e
      | Ok b =>
          match filter_r keep rest with
          | Raise e => Raise e
          | Ok kept => Ok (if b then x :: kept else kept)
          end
      end
  end.

(** The parameters of a signed request: [params["signature"] = ...]. *)
Definition signed (params : Dict.t) : Dict.t :=
  Dict.set "signature" (VStr (_generate_signature params)) params.

(** [None] is Python's [None]. *)
Definition get_positions : M (option (list value)) :=
  ts <- now_ms ;;
  let params := signed [("timestamp", VInt ts)] in
  positions <- _make_request "GET" "/fapi/v3/positionRisk" (Some params) ;;
  if Py.truthy positions then
    items <- lift (Py.iter positions) ;;
    kept <- lift (filter_r has_amount items) ;;
    ret (Some kept)
  else ret None.

Definition get_funding_rate (symbol : value) : M value :=
  let endpoint := "/fapi/v1/premiumIndex?symbol=" ++ py_str symbol in
  _make_request "GET" endpoint None.

(** The [params] literal of [hedge_positions], before it is signed. *)
Definition hedge_params (position : value) : M Dict.t :=
  symbol <- lift (Py.subscript position "symbol") ;;
  side_of <- lift (Py.subscript position "positionSide") ;;
  flip_of <- lift (Py.subscript position "positionSide") ;;
  amt <- lift (Py.subscript position "positionAmt") ;;
  qty <- lift (py_float amt) ;;
  ts <- now_ms ;;
  ret [("symbol", symbol);
       ("side", VStr (if Py.eq_str side_of "SHORT" then "BUY" else "SELL"));
       ("type", VStr "MARKET");
       ("positionSide",
        VStr (if Py.eq_str flip_of "SHORT" then "LONG" else "SHORT"));
       ("quantity", VFloat (F64.abs qty));
       ("timestamp", VInt ts)].

(** The body of the [for] loop, with [hedged_orders] as accumulator. *)
Fixpoint hedge_loop (positions : list value) (hedged_orders : list value)
  : M (list value) :=
  match positions with
  | [] => ret hedged_orders
  | position :: rest =>
      params <- hedge_params position ;;
      response <- _make_request "POST" "/fapi/v1/order" (Some (signed params)) ;;
      hedge_loop rest (hedged_orders ++ [response])
  end.

Definition hedge_positions (positions : list value) : M (list value) :=
  hedge_loop positions [].

(** The [params] literal of [unwind_positions], before it is signed. *)
Definition unwind_params (order : value) : M Dict.t :=
  symbol <- lift (Py.subscript order "symbol") ;;
  side_of <- lift (Py.subscript order "positionSide") ;;
  same <- lift (Py.subscript order "positionSide") ;;
  qty_src <- lift (Py.get order "origQty" (VInt 0)) ;;
  qty <- lift (py_float qty_src) ;;
  ts <- now_ms ;;
  ret [("symbol", symbol);
       ("side", VStr (if Py.eq_str side_of "SHORT" then "BUY" else "SELL"));
       ("type", VStr "MARKET");
       ("positionSide", same);
       ("quantity", VFloat (F64.abs qty));
       ("timestamp", VInt ts)].

Fixpoint unwind_loop (orders : list value) (unwind_orders : list value)
  : M (list value) :=
  match orders with
  | [] => ret unwind_orders
  | order :: rest =>
      params <- unwind_params order ;;
      response <- _make_request "POST" "/fapi/v1/order" (Some (signed params)) ;;
      unwind_loop rest (unwind_orders ++ [response])
  end.

Definition unwind_positions (orders : list value) : M (list value) :=
  unwind_loop orders [].

(** ** The decision workflow of [main] *)

(** The literal [0.0005]. *)
Definition threshold : F64.float := F64.of_decimal false 5 (-4).

(** [float(funding.get("lastFundingRate", 0))] *)
Definition last_rate (funding : value) : result F64.float :=
  match Py.get funding "lastFundingRate" (VInt 0) with
  | Ok v => py_float v
  | Raise e => Raise e
  end.

(** [a and b], where only [b] may raise and is not evaluated when [a]
    is false. *)
Definition and_then (a : bool) (b : result bool) : result bool :=
  if a then b else Ok false.

Definition rate_above (funding : value) : result bool :=
  match last_rate funding with
  | Ok r => Ok (F64.gt r threshold)
  | Raise e => Raise e
  end.

Definition rate_below (funding : value) : result bool :=
  match last_rate funding with
  | Ok r => Ok (F64.lt r (F64.neg threshold))
  | Raise e => Raise e
  end.

(** The [if] / [elif] of the loop: does the position go to [adjust]? *)
Definition needs_hedge (side funding : value) : result bool :=
  match and_then (Py.eq_str side "LONG") (rate_above funding) with
  | Raise e => Raise e
  | Ok true => Ok true
  | Ok false => and_then (Py.eq_str side "SHORT") (rate_below funding)
  end.

(** One turn of the [for] loop over the positions: [adjust] afterwards. *)
Definition select_step (position : value) (adjust : list value)
  : M (list value) :=
  symbol <- lift (Py.subscript position "symbol") ;;
  side <- lift (Py.subscript position "positionSide") ;;
  funding <- get_funding_rate symbol ;;
  chosen <- lift (needs_hedge side funding) ;;
  if chosen then
    log INFO "Funding rate is high" ;;;
    ret (adjust ++ [position])%list
  else ret adjust.

Fixpoint select_loop (positions : list value) (adjust : list value)
  : M (list value) :=
  match positions with
  | [] => ret adjust
  | position :: rest =>
      adjust' <- select_step position adjust ;;
      select_loop rest adjust'
  end.

(** The body of the [try] block. *)
Definition workflow : M unit :=
  log INFO "Starting Binance bot..." ;;;
  positions <- get_positions ;;
  match positions with
  | None | Some [] => log WARNING "No open positions found."
  | Some positions =>
      current_timestamp_ms <- now_ms ;;
      log INFO "Current timestamp" ;;;
      adjust <- select_loop positions [] ;;
      log INFO "Positions requiring hedging" ;;;
      match adjust with
      | [] => log INFO "No hedging required."
      | _ =>
          hedged_orders <- hedge_positions adjust ;;
          log INFO "Hedged orders" ;;;
          log INFO "Waiting for 60 seconds before unwinding..." ;;;
          sleep 60 ;;;
          unwind_orders <- unwind_positions hedged_orders ;;
          log INFO "Unwound orders"
      end
  end.

End Bot.

(** [main()], from a constructed bot on: the exit code of the process.
    An exception out of the [try] block is logged and the process leaves
    through [sys.exit(1)]. *)
Definition run `{Env} (bot : BinanceBot) : world -> Z * world :=
  fun w =>
    match workflow bot w with
    | (Ok _, w') => (0%Z, w')
    | (Raise _, w') =>
        (1%Z, mkWorld (reads w') (trace w' ++ [Logged ERROR "An error occurred"]))
    end.

(** [main()] once [parser.parse_args()] has returned: a configuration
    error leaves with code 1 before any request. *)
Definition main `{Env} : world -> Z * world :=
  fun w =>
    match BinanceBot_init None None None with
    | Raise _ => (1%Z, w)
    | Ok bot => run bot w
    end.



(** ** What a trace shows *)

Definition sent_of (e : event) : option (request * option value) :=
  match e with
  | Sent r a => Some (r, a)
  | _ => None
  end.

Fixpoint sent_in (t : list event) : list (request * option value) :=
  match t with
  | [] => []
  | e :: rest =>
      match sent_of e with
      | Some ra => ra :: sent_in rest
      | None => sent_in rest
      end
  end.

Definition is_order (r : request) : bool :=
  match req_method r with
  | POST => true
  | GET => false
  end.

(** The order submissions of a trace, in order. *)
Definition orders_in (t : list event) : list (request * option value) :=
  filter (fun ra => is_order (fst ra)) (sent_in t).

(* ================================================================== *)
(** * Vocabulary of the properties *)

Section Vocabulary.

Context `{Env}.
Variable bot : BinanceBot.

(** The query string as the specification words it: the [key=value]
    pairs of the mapping, in its order, with [&] between two of them. *)
Fixpoint spec_query_string (params : Dict.t) : string :=
  match params with
  | [] => ""
  | (k, v) :: rest =>
      k ++ "=" ++ py_str v
        ++ match rest with
           | [] => ""
           | _ => "&" ++ spec_query_string rest
           end
  end.

(** What [_make_request] hands back for an answer of the exchange. *)
Definition answer_value (a : option value) : value :=
  match a with
  | Some json => json
  | None => VNone
  end.

(** The world after one more reading of the clock. *)
Definition tick (w : world) : world := mkWorld (S (reads w)) (trace w).

(** A computation that, when it returns, returns a value satisfying [Q]. *)
Definition returns {A} (Q : A -> Prop) (m : M A) : Prop :=
  forall w a w', m w = (Ok a, w') -> Q a.

(** The world after [_make_request] has sent [r] and received [a]. *)
Definition recorded (w : world) (r : request) (a : option value) : world :=
  mkWorld (reads w)
          (trace w ++ Sent r a ::
             match a with
             | Some _ => []
             | None => [Logged ERROR "Request failed"]
             end).

Definition order_request (params : Dict.t) : request :=
  mkRequest POST (base_url bot ++ "/fapi/v1/order")
            [("X-MBX-APIKEY", api_key bot)] (Some params).

Definition positions_request (ts : Z) : request :=
  mkRequest GET (base_url bot ++ "/fapi/v3/positionRisk")
            [("X-MBX-APIKEY", api_key bot)]
            (Some (signed bot [("timestamp", VInt ts)])).

Definition funding_request (symbol : value) : request :=
  mkRequest GET
            (base_url bot ++ "/fapi/v1/premiumIndex?symbol=" ++ py_str symbol)
            [("X-MBX-APIKEY", api_key bot)] None.

(** A request whose last parameter is the signature of the others, none
    of which is named [signature]. *)
Definition signed_last (r : request) : Prop :=
  exists base,
    req_params r
    = Some (base ++ [("signature", VStr (_generate_signature bot base))])%list
    /\ ~ In "signature" (Dict.keys base).

Definition signed_event (e : event) : Prop :=
  match e with
  | Sent r _ => signed_last r
  | _ => True
  end.

Definition not_an_order (e : event) : Prop :=
  match e with
  | Sent r _ => is_order r = false
  | Slept _ => False
  | Logged _ _ => True
  end.

(** Every world reached by [m] extends the trace by events satisfying [P]. *)
Definition grows {A} (P : event -> Prop) (m : M A) : Prop :=
  forall w, exists evs,
    trace (snd (m w)) = (trace w ++ evs)%list /\ Forall P evs.

(** The parameter names of an order, before it is signed. *)
Definition order_keys : list string :=
  ["symbol"; "side"; "type"; "positionSide"; "quantity"; "timestamp"].

(** The shape that the loops of [hedge_positions] and [unwind_positions]
    share: parameters from the element, a signed POST, the answer
    appended. *)
Fixpoint order_loop (params_of : value -> M Dict.t)
         (xs : list value) (acc : list value) : M (list value) :=
  match xs with
  | [] => ret acc
  | x :: rest =>
      params <- params_of x ;;
      response <- _make_request bot "POST" "/fapi/v1/order"
                                (Some (signed bot params)) ;;
      order_loop params_of rest (acc ++ [response])
  end.

(** A position that [hedge_positions] can read. *)
Definition hedgeable (position : value) : Prop :=
  exists symbol side amt qty,
    Py.subscript position "symbol" = Ok symbol
    /\ Py.subscript position "positionSide" = Ok side
    /\ Py.subscript position "positionAmt" = Ok amt
    /\ py_float amt = Ok qty.

(** A float that is not negative: no sign bit, and not below zero. *)
Definition nonnegative (f : F64.float) : Prop :=
  F64.sign_bit f = false /\ F64.lt f F64.zero = false.

(** [params] is the opposing MARKET order of [position]. *)
Definition hedge_order (position : value) (params : Dict.t) : Prop :=
  (exists symbol,
      Py.subscript position "symbol" = Ok symbol
      /\ Dict.get "symbol" params = Some symbol)
  /\ Dict.get "type" params = Some (VStr "MARKET")
  /\ (Py.subscript position "positionSide" = Ok (VStr "SHORT") ->
      Dict.get "side" params = Some (VStr "BUY")
      /\ Dict.get "positionSide" params = Some (VStr "LONG"))
  /\ (Py.subscript position "positionSide" = Ok (VStr "LONG") ->
      Dict.get "side" params = Some (VStr "SELL")
      /\ Dict.get "positionSide" params = Some (VStr "SHORT"))
  /\ exists amt qty,
      Py.subscript position "positionAmt" = Ok amt
      /\ py_float amt = Ok qty
      /\ Dict.get "quantity" params = Some (VFloat (F64.abs qty))
      /\ nonnegative (F64.abs qty).

(** An order response that [unwind_positions] can read. *)
Definition unwindable (order : value) : Prop :=
  exists d symbol side qty,
    order = VDict d
    /\ Dict.get "symbol" d = Some symbol
    /\ Dict.get "positionSide" d = Some side
    /\ py_float (match Dict.get "origQty" d with
                 | Some q => q
                 | None => VInt 0
                 end) = Ok qty.

(** [params] is the closing MARKET order of the hedge response [order]. *)
Definition unwind_order (order : value) (params : Dict.t) : Prop :=
  exists d side,
    order = VDict d
    /\ Dict.get "symbol" d = Dict.get "symbol" params
    /\ Dict.get "positionSide" d = Some side
    /\ Dict.get "positionSide" params = Some side
    /\ Dict.get "type" params = Some (VStr "MARKET")
    /\ (side = VStr "SHORT" -> Dict.get "side" params = Some (VStr "BUY"))
    /\ (side <> VStr "SHORT" -> Dict.get "side" params = Some (VStr "SELL"))
    /\ match Dict.get "origQty" d with
       | Some q =>
           exists qty,
             py_float q = Ok qty
             /\ Dict.get "quantity" params = Some (VFloat (F64.abs qty))
             /\ nonnegative (F64.abs qty)
       | None => Dict.get "quantity" params = Some (VFloat F64.zero)
       end.

(** [r] is the signed POST of parameters related to [x] by [R]. *)
Definition order_for (R : value -> Dict.t -> Prop) (x : value)
           (ra : request * option value) : Prop :=
  exists params,
    fst ra = order_request (signed bot params) /\ R x params.

(** The amount of a position as [get_positions] reads it: zero when the
    field is missing. *)
Definition amount (position : value) : result F64.float :=
  match position with
  | VDict d =>
      match Dict.get "positionAmt" d with
      | Some amt => py_float amt
      | None => Ok F64.zero
      end
  | _ => Raise AttributeError
  end.

Definition amount_readable (position : value) : Prop :=
  exists f, amount position = Ok f.

(** The amount is neither [+0.0] nor [-0.0]. *)
Definition nonzero_amount (position : value) : bool :=
  match amount position with
  | Ok f => negb (F64.is_zero f)
  | Raise _ => false
  end.

(** A funding object whose [lastFundingRate] is the number [f]. *)
Definition rate_object (f : F64.float) : value :=
  VDict [("lastFundingRate", VFloat f)].

(** The world after a line of log. *)
Definition logged (level : log_level) (message : string) (w : world) : world :=
  mkWorld (reads w) (trace w ++ [Logged level message]).

(** The world once [main] has logged that it starts. *)
Definition started (w : world) : world :=
  logged INFO "Starting Binance bot..." w.

End Vocabulary.

(* ================================================================== *)
(** * Vocabulary of the conduct of a run *)

Section Conduct.

Context `{Env}.
Variable bot : BinanceBot.

(** An optional string that Python takes for false. *)
Definition missing (o : option string) : Prop := o = None \/ o = Some "".

(** The three requests the client knows: a signed order, the signed query
    of the positions, the bare query of a funding rate. *)
Definition expected_request (r : request) : Prop :=
  req_headers r = [("X-MBX-APIKEY", api_key bot)]
  /\ ((req_method r = POST
       /\ req_url r = base_url bot ++ "/fapi/v1/order"
       /\ signed_last bot r)
      \/ (req_method r = GET
          /\ req_url r = base_url bot ++ "/fapi/v3/positionRisk"
          /\ signed_last bot r)
      \/ (req_method r = GET
          /\ req_params r = None
          /\ exists symbol,
              req_url r
              = base_url bot ++ "/fapi/v1/premiumIndex?symbol=" ++ py_str symbol)).

Definition expected_event (e : event) : Prop :=
  match e with
  | Sent r _ => expected_request r
  | Slept seconds => seconds = 60%Z
  | Logged _ _ => True
  end.

Definition no_sleep (e : event) : Prop :=
  match e with
  | Slept _ => False
  | _ => True
  end.

Definition order_event (e : event) : Prop :=
  match e with
  | Sent r _ => is_order r = true
  | _ => False
  end.

(** Events without a wait, or with one wait of 60 seconds that comes after
    an order. *)
Definition waits_once_after_an_order (evs : list event) : Prop :=
  Forall no_sleep evs
  \/ exists before after,
      evs = (before ++ Slept 60 :: after)%list
      /\ Forall no_sleep before
      /\ Forall no_sleep after
      /\ Exists order_event before.

(** Every world reached by [m] extends the trace by events that, with the
    outcome of [m], satisfy [Q]. *)
Definition grows_with {A} (Q : result A -> list event -> Prop) (m : M A)
  : Prop :=
  forall w, exists evs,
    trace (snd (m w)) = (trace w ++ evs)%list /\ Q (fst (m w)) evs.

(** [xs] is [ys] with some elements left out. *)
Inductive subsequence : list value -> list value -> Prop :=
| subsequence_nil : subsequence [] []
| subsequence_skip x xs ys : subsequence xs ys -> subsequence xs (x :: ys)
| subsequence_keep x xs ys : subsequence xs ys -> subsequence (x :: xs) (x :: ys).

(** A lowercase hexadecimal digit. *)
Definition is_hex (c : ascii) : bool :=
  let n := N_of_ascii c in
  orb (andb (N.leb 48 n) (N.leb n 57)) (andb (N.leb 97 n) (N.leb n 102)).

(** Text of ASCII characters only. *)
Definition ascii_text (s : string) : Prop :=
  Forall (fun c => (N_of_ascii c < 128)%N) (list_ascii_of_string s).

(** The timestamp among the parameters of a request. *)
Definition timestamp_of (r : request) : option value :=
  match req_params r with
  | Some params => Dict.get "timestamp" params
  | None => None
  end.

End Conduct.

(* ================================================================== *)
(** * Sample runs: a scripted exchange *)

Module Sample.

Definition base : string := "https://fapi.binance.com".

Definition position (symbol side amount : string) : value :=
  VDict [("symbol", VStr symbol); ("positionSide", VStr side);
         ("positionAmt", VStr amount)].

Definition funding (symbol rate : string) : value :=
  VDict [("symbol", VStr symbol); ("lastFundingRate", VStr rate);
         ("nextFundingTime", VInt 1700000060000)].

Definition field (k : string) (d : Dict.t) : value :=
  match Dict.get k d with
  | Some v => v
  | None => VNone
  end.

(** An exchange that fills every order and echoes it. *)
Definition fill (r : request) : option value :=
  match req_params r with
  | Some d =>
      Some (VDict [("orderId", VInt 42); ("symbol", field "symbol" d);
                   ("positionSide", field "positionSide" d);
                   ("origQty", field "quantity" d)])
  | None => None
  end.

Definition reject (r : request) : option value := None.

Fixpoint rate_for (url : string) (rates : list (string * option value))
  : option value :=
  match rates with
  | [] => None
  | (symbol, answer) :: rest =>
      if String.eqb url (base ++ "/fapi/v1/premiumIndex?symbol=" ++ symbol)
      then answer else rate_for url rest
  end.

(** Positions, funding rates by symbol, and what happens to orders. *)
Definition scripted (positions : option value)
           (rates : list (string * option value))
           (orders : request -> option value)
  : world -> request -> option value :=
  fun _ r =>
    match req_method r with
    | POST => orders r
    | GET =>
        if String.eqb (req_url r) (base ++ "/fapi/v3/positionRisk")
        then positions else rate_for (req_url r) rates
    end.

Definition env (ex : world -> request -> option value) : Env :=
  {| float_of_str := Text.parse_float;
     repr_float := Text.repr;
     repr_container := fun _ => "<container>";
     clock_ms := fun n => (1700000000000 + 250 * Z.of_nat n)%Z;
     exchange := ex;
     keyring_get_password :=
       fun service _ =>
         if String.eqb service "BINANCE_API_KEY"
         then Some "demo-key" else Some "demo-secret";
     environ_get := fun _ => None |}.

Definition bot : BinanceBot := mkBot "demo-key" "demo-secret" base.

(** One LONG position on BTCUSDT of 1.0 with a funding rate of 0.001. *)
Definition one_long : Env :=
  env (scripted (Some (VList [position "BTCUSDT" "LONG" "1.0"]))
                [("BTCUSDT", Some (funding "BTCUSDT" "0.00100000"))]
                fill).

(** The same, the exchange refusing every order. *)
Definition one_long_rejected : Env :=
  env (scripted (Some (VList [position "BTCUSDT" "LONG" "1.0"]))
                [("BTCUSDT", Some (funding "BTCUSDT" "0.00100000"))]
                reject).

(** Two positions; the funding rate of the first cannot be fetched. *)
Definition funding_down : Env :=
  env (scripted (Some (VList [position "BTCUSDT" "LONG" "1.0";
                              position "ETHUSDT" "SHORT" "-2.5"]))
                [("BTCUSDT", None);
                 ("ETHUSDT", Some (funding "ETHUSDT" "-0.00100000"))]
                fill).

(** One LONG position, and its funding rate cannot be fetched. *)
Definition one_long_funding_down : Env :=
  env (scripted (Some (VList [position "BTCUSDT" "LONG" "1.0"]))
                [("BTCUSDT", None)]
                fill).

(** Funding rates inside the band. *)
Definition quiet : Env :=
  env (scripted (Some (VList [position "BTCUSDT" "LONG" "1.0";
                              position "ETHUSDT" "SHORT" "-2.5"]))
                [("BTCUSDT", Some (funding "BTCUSDT" "0.00050000"));
                 ("ETHUSDT", Some (funding "ETHUSDT" "-0.00010000"))]
                fill).

Definition no_positions : Env :=
  env (scripted (Some (VList [])) [] fill).

(** Four positions of which two are flat: one zero amount, one without
    amount. *)
Definition four_positions : list value :=
  [position "BTCUSDT" "LONG" "1.0";
   position "ETHUSDT" "SHORT" "0.000";
   position "XRPUSDT" "SHORT" "-2.5";
   VDict [("symbol", VStr "SOLUSDT"); ("positionSide", VStr "LONG")]].

Definition some_flat : Env :=
  env (scripted (Some (VList four_positions)) [] fill).

Definition two_positions : list value :=
  [position "BTCUSDT" "LONG" "1.0"; position "ETHUSDT" "SHORT" "-2.5"].

(** Two hedge responses, the second without [origQty]. *)
Definition two_hedges : list value :=
  [VDict [("orderId", VInt 42); ("symbol", VStr "BTCUSDT");
          ("positionSide", VStr "SHORT"); ("origQty", VStr "1.0")];
   VDict [("orderId", VInt 43); ("symbol", VStr "ETHUSDT");
          ("positionSide", VStr "LONG")]].

End Sample.

(** Further cases: an empty credential store, a one-way position, answers
    that are not positions. *)
Module Cases.

Definition no_credentials : Env :=
  {| float_of_str := Text.parse_float;
     repr_float := Text.repr;
     repr_container := fun _ => "<container>";
     clock_ms := fun n => (1700000000000 + 250 * Z.of_nat n)%Z;
     exchange := fun _ _ => None;
     keyring_get_password := fun _ _ => None;
     environ_get := fun _ => None |}.

(** A position of an account in one-way mode. *)
Definition one_way_position : value :=
  Sample.position "BTCUSDT" "BOTH" "-3".

(** One-way mode, and no funding rate to be had. *)
Definition one_way : Env :=
  Sample.env (Sample.scripted (Some (VList [one_way_position]))
                              [("BTCUSDT", None)] Sample.fill).

(** The exchange answers the query of the positions with an error object. *)
Definition error_object : list (string * value) :=
  [("code", VInt (-2015)); ("msg", VStr "Invalid API-key")].

Definition refused : Env :=
  Sample.env (Sample.scripted (Some (VDict error_object)) [] Sample.fill).

(** A list of positions of which one has an amount that is no number. *)
Definition garbled_positions : list value :=
  [Sample.position "BTCUSDT" "LONG" "1.0";
   Sample.position "ETHUSDT" "SHORT" "n/a"].

Definition garbled : Env :=
  Sample.env (Sample.scripted (Some (VList garbled_positions)) [] Sample.fill).

(** A position without [positionSide]. *)
Definition sideless : value :=
  VDict [("symbol", VStr "XRPUSDT"); ("positionAmt", VStr "7")].

End Cases.

(* ================================================================== *)
(** * Properties *)

Section Properties.

Context `{Env}.
Variable bot : BinanceBot.

(** ** Strings *)

Lemma append_assoc (a b c : string) : (a ++ b) ++ c = a ++ (b ++ c).
Proof. induction a as [|x a IH]; simpl; [reflexivity | now rewrite IH]. Qed.

Lemma append_nil_r (a : string) : a ++ "" = a.
Proof. induction a as [|x a IH]; simpl; [reflexivity | now rewrite IH]. Qed.

(** What [join] has accumulated once the first item is in. *)
Lemma join_rest (sep : string) (items : list string) (text : string) :
  snd (fold_left
         (fun (acc : bool * string) (item : string) =>
            let (first, text) := acc in
            (false, if first then item else text ++ sep ++ item))
         items (false, text))
  = text ++ fold_right (fun item rest => sep ++ item ++ rest) "" items.
Proof.
  revert text; induction items as [|item items IH]; intros text; simpl.
  - now rewrite append_nil_r.
  - rewrite IH. now rewrite !append_assoc.
Qed.

Lemma spec_query_string_tail (params : Dict.t) :
  fold_right (fun item rest => "&" ++ item ++ rest) "" (pairs_text params)
  = match params with
    | [] => ""
    | _ => "&" ++ spec_query_string params
    end.
Proof.
  induction params as [|[k v] rest IH]; [reflexivity|].
  cbn [pairs_text map fold_right fst snd spec_query_string].
  fold (pairs_text rest). rewrite IH.
  now rewrite !append_assoc.
Qed.

Lemma query_string_spec (params : Dict.t) :
  query_string params = spec_query_string params.
Proof.
  unfold query_string, Py.join.
  destruct params as [|[k v] rest]; [reflexivity|].
  cbn [pairs_text map fold_left fst snd spec_query_string].
  fold (pairs_text rest).
  rewrite join_rest, spec_query_string_tail.
  now rewrite !append_assoc.
Qed.

(** ** The digest as text *)

Lemma hexdigest_length (msg : list N) :
  String.length (SHA256.hexdigest msg) = 64.
Proof.
  unfold SHA256.hexdigest. destruct (SHA256.digest_state msg). reflexivity.
Qed.

Lemma signature_length (params : Dict.t) :
  String.length (_generate_signature bot params) = 64.
Proof. apply hexdigest_length. Qed.

(** C2. The signature of a parameter mapping is the hexadecimal
    HMAC-SHA256 digest, keyed by the API secret, of the [key=value]
    pairs of the mapping joined by [&] in the mapping's order. *)
Theorem signature_is_hmac_of_query_string (params : Dict.t) :
  _generate_signature bot params
  = HMAC.hexdigest (Bytes.of_string (api_secret bot))
                   (Bytes.of_string (spec_query_string params)).
Proof.
  unfold _generate_signature. now rewrite query_string_spec.
Qed.

(** ** Running computations *)

Lemma make_request_get (endpoint : string) (params : option Dict.t) (w : world) :
  let r := mkRequest GET (base_url bot ++ endpoint)
                     [("X-MBX-APIKEY", api_key bot)] params in
  _make_request bot "GET" endpoint params w
  = (Ok (answer_value (exchange w r)), recorded w r (exchange w r)).
Proof.
  intros r. unfold _make_request, bind, lift, send, recorded. simpl.
  fold r. destruct (exchange w r); [reflexivity|].
  unfold log, emit, ret. simpl. now rewrite <- app_assoc.
Qed.

Lemma make_request_post (endpoint : string) (params : option Dict.t) (w : world) :
  let r := mkRequest POST (base_url bot ++ endpoint)
                     [("X-MBX-APIKEY", api_key bot)] params in
  _make_request bot "POST" endpoint params w
  = (Ok (answer_value (exchange w r)), recorded w r (exchange w r)).
Proof.
  intros r. unfold _make_request, bind, lift, send, recorded. simpl.
  fold r. destruct (exchange w r); [reflexivity|].
  unfold log, emit, ret. simpl. now rewrite <- app_assoc.
Qed.

(** ** Growth of the trace *)

Lemma grows_ret {A} (P : event -> Prop) (a : A) : grows P (ret a).
Proof. intros w. exists []. simpl. now rewrite app_nil_r. Qed.

Lemma grows_lift {A} (P : event -> Prop) (r : result A) : grows P (lift r).
Proof. intros w. exists []. simpl. now rewrite app_nil_r. Qed.

Lemma grows_now (P : event -> Prop) : grows P now_ms.
Proof. intros w. exists []. simpl. now rewrite app_nil_r. Qed.

Lemma grows_emit (P : event -> Prop) (e : event) : P e -> grows P (emit e).
Proof. intros He w. exists [e]. simpl. auto. Qed.

Lemma grows_bind {A B} (P : event -> Prop) (Q : A -> Prop)
      (m : M A) (k : A -> M B) :
  grows P m -> returns Q m -> (forall a, Q a -> grows P (k a)) ->
  grows P (bind m k).
Proof.
  intros Hm HQ Hk w. unfold bind.
  destruct (Hm w) as [evs1 [E1 F1]].
  destruct (m w) as [[a|e] w1] eqn:Em; simpl in E1.
  - destruct (Hk a (HQ _ _ _ Em) w1) as [evs2 [E2 F2]].
    exists (evs1 ++ evs2)%list. split.
    + now rewrite E2, E1, app_assoc.
    + now apply Forall_app.
  - exists evs1. simpl. auto.
Qed.

Lemma returns_any {A} (m : M A) : returns (fun _ => True) m.
Proof. now intros w a w' _. Qed.

Lemma grows_seq {A B} (P : event -> Prop) (m : M A) (k : A -> M B) :
  grows P m -> (forall a, grows P (k a)) -> grows P (bind m k).
Proof.
  intros Hm Hk. apply grows_bind with (Q := fun _ => True); auto.
  apply returns_any.
Qed.

Lemma grows_make_request (P : event -> Prop) (method endpoint : string)
      (params : option Dict.t) :
  (forall verb a,
      P (Sent (mkRequest verb (base_url bot ++ endpoint)
                         [("X-MBX-APIKEY", api_key bot)] params) a)) ->
  P (Logged ERROR "Request failed") ->
  grows P (_make_request bot method endpoint params).
Proof.
  intros HS HL. unfold _make_request.
  apply grows_seq; [apply grows_lift|]. intros verb.
  apply grows_seq.
  - intros w. eexists [_]. simpl. split; [reflexivity|].
    constructor; [apply HS | constructor].
  - intros [json|]; [apply grows_ret|].
    apply grows_seq; [now apply grows_emit | intros; apply grows_ret].
Qed.

(** ** Signing *)

Lemma set_new_key (k : string) (v : value) (d : Dict.t) :
  ~ In k (Dict.keys d) -> Dict.set k v d = (d ++ [(k, v)])%list.
Proof.
  induction d as [|[k' v'] d IH]; intros Hk; [reflexivity|].
  simpl in *. destruct (String.eqb_spec k k') as [->|Hne].
  - exfalso. auto.
  - rewrite IH; auto.
Qed.

Lemma get_absent (k : string) (d : Dict.t) :
  ~ In k (Dict.keys d) -> Dict.get k d = None.
Proof.
  induction d as [|[k' v'] d IH]; intros Hk; [reflexivity|].
  cbn [Dict.get]. destruct (String.eqb_spec k k') as [->|Hne].
  - exfalso. apply Hk. now left.
  - apply IH. intros Hin. apply Hk. now right.
Qed.

Lemma signed_is_signed_last (verb : http_method) (url : string)
      (headers : list (string * string)) (params : Dict.t) :
  ~ In "signature" (Dict.keys params) ->
  signed_last bot (mkRequest verb url headers (Some (signed bot params))).
Proof.
  intros Hk. exists params. split; [|assumption].
  simpl. unfold signed. now rewrite set_new_key.
Qed.

Lemma hedge_params_keys (position : value) :
  returns (fun params => Dict.keys params = order_keys) (hedge_params position).
Proof.
  intros w params w'. unfold hedge_params, bind, lift, now_ms, ret.
  repeat match goal with
         | |- context [match ?r with Ok _ => _ | Raise _ => _ end] =>
             destruct r; try discriminate
         end.
  intros E. inversion E. reflexivity.
Qed.

Lemma unwind_params_keys (order : value) :
  returns (fun params => Dict.keys params = order_keys) (unwind_params order).
Proof.
  intros w params w'. unfold unwind_params, bind, lift, now_ms, ret.
  repeat match goal with
         | |- context [match ?r with Ok _ => _ | Raise _ => _ end] =>
             destruct r; try discriminate
         end.
  intros E. inversion E. reflexivity.
Qed.

Lemma order_keys_unsigned (params : Dict.t) :
  Dict.keys params = order_keys -> ~ In "signature" (Dict.keys params).
Proof.
  intros ->. unfold order_keys. simpl.
  intros [E|[E|[E|[E|[E|[E|[]]]]]]]; discriminate.
Qed.

Lemma grows_hedge_params (P : event -> Prop) (position : value) :
  grows P (hedge_params position).
Proof.
  unfold hedge_params.
  repeat (apply grows_seq; [apply grows_lift || apply grows_now | intros ?]).
  apply grows_ret.
Qed.

Lemma grows_unwind_params (P : event -> Prop) (order : value) :
  grows P (unwind_params order).
Proof.
  unfold unwind_params.
  repeat (apply grows_seq; [apply grows_lift || apply grows_now | intros ?]).
  apply grows_ret.
Qed.

Lemma grows_signed_order (params : Dict.t) :
  Dict.keys params = order_keys ->
  grows (signed_event bot)
        (_make_request bot "POST" "/fapi/v1/order" (Some (signed bot params))).
Proof.
  intros Hk. apply grows_make_request; [|exact I].
  intros verb a. apply signed_is_signed_last.
  now apply order_keys_unsigned.
Qed.

Lemma hedge_loop_signed (positions acc : list value) :
  grows (signed_event bot) (hedge_loop bot positions acc).
Proof.
  revert acc; induction positions as [|p ps IH]; intros acc; simpl.
  - apply grows_ret.
  - eapply grows_bind;
      [apply grows_hedge_params | apply hedge_params_keys |].
    intros params Hk. simpl in Hk.
    apply grows_seq; [now apply grows_signed_order | intros; apply IH].
Qed.

Lemma unwind_loop_signed (orders acc : list value) :
  grows (signed_event bot) (unwind_loop bot orders acc).
Proof.
  revert acc; induction orders as [|o os IH]; intros acc; simpl.
  - apply grows_ret.
  - eapply grows_bind;
      [apply grows_unwind_params | apply unwind_params_keys |].
    intros params Hk. simpl in Hk.
    apply grows_seq; [now apply grows_signed_order | intros; apply IH].
Qed.

Lemma get_positions_signed : grows (signed_event bot) (get_positions bot).
Proof.
  unfold get_positions.
  apply grows_seq; [apply grows_now | intros ts].
  apply grows_seq.
  - apply grows_make_request; [|exact I].
    intros verb a. apply signed_is_signed_last.
    simpl. intros [E|[]]; discriminate.
  - intros positions. destruct (Py.truthy positions); [|apply grows_ret].
    repeat (apply grows_seq; [apply grows_lift | intros ?]).
    apply grows_ret.
Qed.

(** C3. Every request that [get_positions], [hedge_positions] and
    [unwind_positions] send carries its signature as the last parameter,
    and the signature is computed over the parameters before it, none of
    which is named [signature]. *)
Theorem signature_is_last_and_not_signed :
  grows (signed_event bot) (get_positions bot)
  /\ (forall positions, grows (signed_event bot) (hedge_positions bot positions))
  /\ (forall orders, grows (signed_event bot) (unwind_positions bot orders))
  /\ (forall params,
        Dict.keys params = order_keys \/ Dict.keys params = ["timestamp"] ->
        signed bot params
        = (params ++ [("signature", VStr (_generate_signature bot params))])%list
        /\ Dict.get "signature" params = None).
Proof.
  split; [apply get_positions_signed|].
  split; [intros l; apply hedge_loop_signed|].
  split; [intros l; apply unwind_loop_signed|].
  intros params Hk.
  assert (Hnot : ~ In "signature" (Dict.keys params)).
  { destruct Hk as [Hk | Hk]; [now apply order_keys_unsigned|].
    rewrite Hk. simpl. intros [E|[]]. discriminate. }
  split; [unfold signed; now rewrite set_new_key | now apply get_absent].
Qed.

(** ** The requests of a trace *)

Lemma sent_in_app (t1 t2 : list event) :
  sent_in (t1 ++ t2) = (sent_in t1 ++ sent_in t2)%list.
Proof.
  induction t1 as [|e t1 IH]; [reflexivity|].
  simpl. destruct (sent_of e); simpl; now rewrite IH.
Qed.

Lemma sent_in_recorded (w : world) (r : request) (a : option value) :
  sent_in (trace (recorded w r a)) = (sent_in (trace w) ++ [(r, a)])%list.
Proof.
  unfold recorded. simpl. rewrite sent_in_app. destruct a; reflexivity.
Qed.

Lemma orders_in_app (t1 t2 : list event) :
  orders_in (t1 ++ t2) = (orders_in t1 ++ orders_in t2)%list.
Proof. unfold orders_in. now rewrite sent_in_app, filter_app. Qed.

(** ** Floats *)

Lemma abs_nonnegative (f : F64.float) : nonnegative (F64.abs f).
Proof. destruct f as [s|s| |s m e]; split; reflexivity. Qed.

Lemma abs_at_least_zero (f : F64.float) :
  F64.is_nan f = false -> SFleb F64.zero (F64.abs f) = true.
Proof. destruct f as [s|s| |s m e]; simpl; intros E; try discriminate; reflexivity. Qed.

(** ** Comparisons with a string literal *)

Lemma eq_str_true (v : value) (s : string) :
  Py.eq_str v s = true <-> v = VStr s.
Proof.
  destruct v; simpl; try (split; [discriminate | intros E; discriminate E]).
  rewrite String.eqb_eq. split; [now intros -> | now intros [= ->]].
Qed.

Lemma eq_str_false (v : value) (s : string) :
  Py.eq_str v s = false <-> v <> VStr s.
Proof.
  rewrite <- eq_str_true. destruct (Py.eq_str v s); split; congruence.
Qed.

(** ** One iteration of the order loops *)

Lemma hedge_params_run (position : value) (w : world) :
  hedgeable position ->
  exists params,
    hedge_params position w = (Ok params, tick w)
    /\ hedge_order position params
    /\ Dict.keys params = order_keys.
Proof.
  intros (symbol & side & amt & qty & Es & Ep & Ea & Eq).
  unfold hedge_params, bind, lift, now_ms, ret.
  rewrite Es, Ep, Ea, Eq. eexists. split; [reflexivity|].
  split; [|reflexivity].
  unfold hedge_order. rewrite Es, Ep, Ea. simpl.
  split; [now exists symbol|]. split; [reflexivity|].
  split; [intros E; inversion E; subst; simpl; auto|].
  split; [intros E; inversion E; subst; simpl; auto|].
  exists amt, qty. auto using abs_nonnegative.
Qed.

Lemma unwind_params_run (order : value) (w : world) :
  unwindable order ->
  exists params,
    unwind_params order w = (Ok params, tick w)
    /\ unwind_order order params
    /\ Dict.keys params = order_keys.
Proof.
  intros (d & symbol & side & qty & -> & Es & Ep & Eq).
  unfold unwind_params, bind, lift, now_ms, ret. simpl.
  rewrite Es, Ep. simpl.
  destruct (Dict.get "origQty" d) as [q|] eqn:Eo.
  - rewrite Eq. eexists. split; [reflexivity|]. split; [|reflexivity].
    exists d, side. rewrite Es, Ep, Eo. simpl.
    repeat (split; [reflexivity|]).
    split; [|split].
    + intros ->. reflexivity.
    + intros Hne. apply eq_str_false in Hne. now rewrite Hne.
    + exists qty. auto using abs_nonnegative.
  - eexists. split; [reflexivity|]. split; [|reflexivity].
    exists d, side. rewrite Es, Ep, Eo. simpl.
    repeat (split; [reflexivity|]).
    split; [|split].
    + intros ->. reflexivity.
    + intros Hne. apply eq_str_false in Hne. now rewrite Hne.
    + reflexivity.
Qed.

(** ** The order loops, run to their end *)

Section Loop.

Variable params_of : value -> M Dict.t.
Variable readable : value -> Prop.
Variable related : value -> Dict.t -> Prop.

Hypothesis params_of_run :
  forall x w, readable x ->
    exists params,
      params_of x w = (Ok params, tick w)
      /\ related x params /\ Dict.keys params = order_keys.

Lemma order_loop_run (xs : list value) :
  Forall readable xs ->
  forall acc w,
  exists sent w',
    order_loop bot params_of xs acc w
    = (Ok (acc ++ map (fun ra => answer_value (snd ra)) sent)%list, w')
    /\ sent_in (trace w') = (sent_in (trace w) ++ sent)%list
    /\ Forall2 (order_for bot related) xs sent.
Proof.
  induction 1 as [|x rest Hx Hrest IH]; intros acc w.
  - exists [], w. simpl. rewrite !app_nil_r. repeat split. constructor.
  - destruct (params_of_run x w Hx) as (params & Ep & Hrel & Hk).
    cbn [order_loop]. unfold bind at 1. rewrite Ep.
    unfold bind at 1. rewrite make_request_post.
    set (r := mkRequest POST _ _ _).
    set (a := exchange (tick w) r).
    destruct (IH (acc ++ [answer_value a])%list (recorded (tick w) r a))
      as (sent & w' & Erun & Esent & Hall).
    exists ((r, a) :: sent), w'. split; [|split].
    + rewrite Erun. simpl. now rewrite <- app_assoc.
    + rewrite Esent, sent_in_recorded. simpl. now rewrite <- app_assoc.
    + constructor; [|assumption]. exists params. split; [reflexivity|assumption].
Qed.

End Loop.

Lemma hedge_loop_shape (positions acc : list value) (w : world) :
  hedge_loop bot positions acc w = order_loop bot hedge_params positions acc w.
Proof.
  revert acc w; induction positions as [|p ps IH]; intros acc w; [reflexivity|].
  simpl. unfold bind.
  destruct (hedge_params p w) as [[params|e] w1]; [|reflexivity].
  destruct (_make_request bot _ _ _ w1) as [[response|e] w2]; [|reflexivity].
  apply IH.
Qed.

Lemma unwind_loop_shape (orders acc : list value) (w : world) :
  unwind_loop bot orders acc w = order_loop bot unwind_params orders acc w.
Proof.
  revert acc w; induction orders as [|o os IH]; intros acc w; [reflexivity|].
  simpl. unfold bind.
  destruct (unwind_params o w) as [[params|e] w1]; [|reflexivity].
  destruct (_make_request bot _ _ _ w1) as [[response|e] w2]; [|reflexivity].
  apply IH.
Qed.

(** C5. For every position of its input, [hedge_positions] sends a MARKET
    order with side BUY and positionSide LONG when the position is SHORT,
    side SELL and positionSide SHORT when it is LONG, and a quantity that
    is the absolute value of the position's amount, hence not negative. *)
Theorem hedge_orders_oppose_positions (positions : list value) (w : world) :
  Forall hedgeable positions ->
  exists sent w',
    hedge_positions bot positions w
    = (Ok (map (fun ra => answer_value (snd ra)) sent), w')
    /\ sent_in (trace w') = (sent_in (trace w) ++ sent)%list
    /\ Forall2 (order_for bot hedge_order) positions sent.
Proof.
  intros Hall. unfold hedge_positions. rewrite hedge_loop_shape.
  apply order_loop_run with (readable := hedgeable); [|assumption].
  intros position w0. apply hedge_params_run.
Qed.


(** ** [get_positions] *)

Lemma get_positions_run (w : world) :
  let r := positions_request bot (clock_ms (reads w)) in
  let a := exchange (tick w) r in
  get_positions bot w
  = (if Py.truthy (answer_value a) then
       match Py.iter (answer_value a) with
       | Ok items =>
           match filter_r has_amount items with
           | Ok kept => Ok (Some kept)
           | Raise e => Raise e
           end
       | Raise e => Raise e
       end
     else Ok None,
     recorded (tick w) r a).
Proof.
  intros r a. unfold get_positions, bind at 1, now_ms.
  unfold bind at 1. rewrite make_request_get. fold (tick w).
  change (mkRequest GET _ _ _) with r. fold a.
  destruct (Py.truthy (answer_value a)); [|reflexivity].
  unfold bind, lift, ret.
  destruct (Py.iter (answer_value a)) as [items|e]; [|reflexivity].
  destruct (filter_r has_amount items); reflexivity.
Qed.

Lemma ne_zero_is_not_zero (f : F64.float) :
  F64.ne f F64.zero = negb (F64.is_zero f).
Proof. destruct f as [s|s| |s m e]; try reflexivity; destruct s; reflexivity. Qed.

Lemma has_amount_amount (position : value) :
  has_amount position
  = match amount position with
    | Ok f => Ok (negb (F64.is_zero f))
    | Raise e => Raise e
    end.
Proof.
  unfold has_amount, amount, Py.get.
  destruct position; try reflexivity.
  destruct (Dict.get "positionAmt" entries) as [amt|].
  - destruct (py_float amt); [now rewrite ne_zero_is_not_zero | reflexivity].
  - reflexivity.
Qed.

Lemma filter_r_readable (items : list value) :
  Forall amount_readable items ->
  filter_r has_amount items = Ok (filter nonzero_amount items).
Proof.
  induction 1 as [|x rest [f Hf] _ IH]; [reflexivity|].
  simpl. rewrite has_amount_amount, IH. unfold nonzero_amount.
  rewrite Hf. reflexivity.
Qed.

(** C7. When the exchange answers with a non-empty list of positions,
    [get_positions] returns exactly those whose amount is not zero, in
    their order: a position with a zero amount is left out, and one with
    a nonzero amount, of either sign, is kept. *)
Theorem get_positions_keeps_nonzero (w : world) (items : list value) :
  exchange (tick w) (positions_request bot (clock_ms (reads w)))
  = Some (VList items) ->
  items <> [] ->
  Forall amount_readable items ->
  exists w',
    get_positions bot w = (Ok (Some (filter nonzero_amount items)), w')
    /\ forall position,
        In position (filter nonzero_amount items)
        <-> In position items
            /\ exists f, amount position = Ok f /\ F64.is_zero f = false.
Proof.
  intros Ea Hne Hall. eexists. split.
  - rewrite get_positions_run, Ea. simpl.
    destruct items as [|x rest]; [contradiction|].
    now rewrite (filter_r_readable _ Hall).
  - intros position. rewrite filter_In. unfold nonzero_amount.
    split; intros [Hin Hnz]; (split; [assumption|]).
    + destruct (amount position) as [f|e]; [|discriminate].
      exists f. split; [reflexivity|]. now destruct (F64.is_zero f).
    + destruct Hnz as [f [-> Hz]]. now rewrite Hz.
Qed.

(** ** Answers and outputs, index by index *)

Lemma answers_nth (sent : list (request * option value)) (i : nat)
      (r : request) (a : option value) :
  nth_error sent i = Some (r, a) ->
  nth_error (map (fun ra => answer_value (snd ra)) sent) i
  = Some (answer_value a).
Proof. intros E. now rewrite nth_error_map, E. Qed.

Lemma order_loop_outputs (params_of : value -> M Dict.t)
      (readable : value -> Prop) (related : value -> Dict.t -> Prop)
      (xs : list value) (w : world) :
  (forall x w, readable x ->
     exists params,
       params_of x w = (Ok params, tick w)
       /\ related x params /\ Dict.keys params = order_keys) ->
  Forall readable xs ->
  exists sent out w',
    order_loop bot params_of xs [] w = (Ok out, w')
    /\ sent_in (trace w') = (sent_in (trace w) ++ sent)%list
    /\ Forall2 (order_for bot related) xs sent
    /\ List.length out = List.length xs
    /\ forall i r a,
        nth_error sent i = Some (r, a) ->
        nth_error out i = Some (answer_value a).
Proof.
  intros Hrun Hall.
  destruct (order_loop_run params_of readable related Hrun xs Hall [] w)
    as (sent & w' & Erun & Esent & Hrel).
  exists sent, (map (fun ra => answer_value (snd ra)) sent), w'.
  repeat split; try assumption.
  - rewrite length_map. symmetry. eapply Forall2_length; eassumption.
  - intros i r a. apply answers_nth.
Qed.

(** C8. [hedge_positions] and [unwind_positions] submit one order per
    element of their input, in its order, whatever the exchange answers:
    a failed submission does not stop the following ones, the output has
    the length of the input, and its entry for a failed submission is
    [None]. *)
Theorem orders_are_submitted_independently :
  (forall positions w,
      Forall hedgeable positions ->
      exists sent out w',
        hedge_positions bot positions w = (Ok out, w')
        /\ sent_in (trace w') = (sent_in (trace w) ++ sent)%list
        /\ Forall2 (order_for bot hedge_order) positions sent
        /\ List.length out = List.length positions
        /\ forall i r a,
            nth_error sent i = Some (r, a) ->
            nth_error out i = Some (match a with
                                    | Some json => json
                                    | None => VNone
                                    end))
  /\ (forall orders w,
        Forall unwindable orders ->
        exists sent out w',
          unwind_positions bot orders w = (Ok out, w')
          /\ sent_in (trace w') = (sent_in (trace w) ++ sent)%list
          /\ Forall2 (order_for bot unwind_order) orders sent
          /\ List.length out = List.length orders
          /\ forall i r a,
              nth_error sent i = Some (r, a) ->
              nth_error out i = Some (match a with
                                      | Some json => json
                                      | None => VNone
                                      end)).
Proof.
  split.
  - intros positions w Hall. unfold hedge_positions.
    rewrite hedge_loop_shape.
    apply order_loop_outputs with (readable := hedgeable); [|assumption].
    intros x w0. apply hedge_params_run.
  - intros orders w Hall. unfold unwind_positions.
    rewrite unwind_loop_shape.
    apply order_loop_outputs with (readable := unwindable); [|assumption].
    intros x w0. apply unwind_params_run.
Qed.

(** ** Comparison of floats *)

Lemma compare_swap (a b : F64.float) :
  SFcompare b a = option_map CompOpp (SFcompare a b).
Proof.
  destruct a as [s|s| |s m e], b as [s'|s'| |s' m' e']; simpl;
    try reflexivity; try (destruct s; reflexivity);
    try (destruct s'; reflexivity);
    try (destruct s, s'; reflexivity).
  destruct s, s'; try reflexivity; f_equal;
    rewrite (Z.compare_antisym e e');
    destruct (e ?= e')%Z; simpl; try reflexivity;
    change Eq with (CompOpp Eq) at 1;
    rewrite <- Pos.compare_cont_antisym; reflexivity.
Qed.

Lemma gt_iff_compare (r t : F64.float) :
  F64.gt r t = true <-> SFcompare r t = Some Gt.
Proof.
  unfold F64.gt, SFltb. rewrite (compare_swap r t).
  destruct (SFcompare r t) as [[| |]|]; simpl; split; congruence.
Qed.

Lemma lt_iff_compare (r t : F64.float) :
  F64.lt r t = true <-> SFcompare r t = Some Lt.
Proof.
  unfold F64.lt, SFltb.
  destruct (SFcompare r t) as [[| |]|]; simpl; split; congruence.
Qed.

(** ** One turn of the decision loop *)

Lemma get_funding_rate_run (symbol : value) (w : world) :
  let r := funding_request bot symbol in
  get_funding_rate bot symbol w
  = (Ok (answer_value (exchange w r)), recorded w r (exchange w r)).
Proof. intros r. unfold get_funding_rate. now rewrite make_request_get. Qed.

Lemma select_step_run (position symbol side : value)
      (adjust : list value) (w : world) :
  Py.subscript position "symbol" = Ok symbol ->
  Py.subscript position "positionSide" = Ok side ->
  let r := funding_request bot symbol in
  let w1 := recorded w r (exchange w r) in
  select_step bot position adjust w
  = match needs_hedge side (answer_value (exchange w r)) with
    | Ok true =>
        (Ok (adjust ++ [position])%list, logged INFO "Funding rate is high" w1)
    | Ok false => (Ok adjust, w1)
    | Raise e => (Raise e, w1)
    end.
Proof.
  intros Es Ep r w1. unfold select_step, bind at 1, lift. rewrite Es.
  unfold bind at 1. rewrite Ep.
  unfold bind at 1. rewrite get_funding_rate_run. fold r. fold w1.
  unfold bind at 1.
  destruct (needs_hedge side (answer_value (exchange w r))) as [[|]|e];
    reflexivity.
Qed.

Lemma needs_hedge_long (funding : value) (r : F64.float) :
  last_rate funding = Ok r ->
  needs_hedge (VStr "LONG") funding = Ok (F64.gt r threshold).
Proof.
  intros Er. unfold needs_hedge, rate_above, rate_below. simpl.
  rewrite Er. now destruct (F64.gt r threshold).
Qed.

Lemma needs_hedge_short (funding : value) (r : F64.float) :
  last_rate funding = Ok r ->
  needs_hedge (VStr "SHORT") funding = Ok (F64.lt r (F64.neg threshold)).
Proof.
  intros Er. unfold needs_hedge, rate_above, rate_below. simpl.
  now rewrite Er.
Qed.


(** ** What is sent before any order *)

Lemma grows_get (P : event -> Prop) (endpoint : string) (params : option Dict.t) :
  (forall a,
      P (Sent (mkRequest GET (base_url bot ++ endpoint)
                         [("X-MBX-APIKEY", api_key bot)] params) a)) ->
  P (Logged ERROR "Request failed") ->
  grows P (_make_request bot "GET" endpoint params).
Proof.
  intros HS HL w. rewrite make_request_get. simpl.
  destruct (exchange w _) as [json|]; eexists; (split; [reflexivity|]);
    repeat constructor; auto.
Qed.

Lemma get_positions_sends_no_order : grows not_an_order (get_positions bot).
Proof.
  unfold get_positions.
  apply grows_seq; [apply grows_now | intros ts].
  apply grows_seq.
  - apply grows_get; [reflexivity | exact I].
  - intros positions. destruct (Py.truthy positions); [|apply grows_ret].
    repeat (apply grows_seq; [apply grows_lift | intros ?]).
    apply grows_ret.
Qed.

Lemma select_step_sends_no_order (position : value) (adjust : list value) :
  grows not_an_order (select_step bot position adjust).
Proof.
  unfold select_step.
  do 2 (apply grows_seq; [apply grows_lift | intros ?]).
  apply grows_seq; [apply grows_get; [reflexivity | exact I] | intros funding].
  apply grows_seq; [apply grows_lift | intros chosen].
  destruct chosen; [|apply grows_ret].
  apply grows_seq; [now apply grows_emit | intros; apply grows_ret].
Qed.

Lemma select_loop_sends_no_order (positions adjust : list value) :
  grows not_an_order (select_loop bot positions adjust).
Proof.
  revert adjust; induction positions as [|p ps IH]; intros adjust; simpl.
  - apply grows_ret.
  - apply grows_seq; [apply select_step_sends_no_order | intros; apply IH].
Qed.

(** ** The early returns of the workflow *)

Lemma workflow_no_positions (w w1 : world) (positions : option (list value)) :
  get_positions bot (started w) = (Ok positions, w1) ->
  positions = None \/ positions = Some [] ->
  workflow bot w = (Ok tt, logged WARNING "No open positions found." w1).
Proof.
  intros Eg Hp. unfold workflow, bind at 1. cbn [log emit].
  fold (logged INFO "Starting Binance bot..." w). fold (started w).
  unfold bind at 1. rewrite Eg.
  destruct Hp as [-> | ->]; reflexivity.
Qed.

Lemma workflow_selection (w w1 w3 : world) (p : value) (ps adjust : list value) :
  get_positions bot (started w) = (Ok (Some (p :: ps)), w1) ->
  select_loop bot (p :: ps) [] (logged INFO "Current timestamp" (tick w1))
  = (Ok adjust, w3) ->
  workflow bot w
  = match adjust with
    | [] => (Ok tt, logged INFO "No hedging required."
                           (logged INFO "Positions requiring hedging" w3))
    | _ =>
        bind (hedge_positions bot adjust)
             (fun hedged_orders =>
                log INFO "Hedged orders" ;;;
                log INFO "Waiting for 60 seconds before unwinding..." ;;;
                sleep 60 ;;;
                unwind_orders <- unwind_positions bot hedged_orders ;;
                log INFO "Unwound orders")
             (logged INFO "Positions requiring hedging" w3)
    end.
Proof.
  intros Eg Esel. unfold workflow, bind at 1. cbn [log emit].
  fold (logged INFO "Starting Binance bot..." w). fold (started w).
  unfold bind at 1. rewrite Eg.
  unfold bind at 1. cbn [now_ms]. fold (tick w1).
  unfold bind at 1. cbn [log emit]. fold (logged INFO "Current timestamp" (tick w1)).
  unfold bind at 1. rewrite Esel.
  unfold bind at 1. cbn [log emit].
  fold (logged INFO "Positions requiring hedging" w3).
  destruct adjust; reflexivity.
Qed.

Lemma trace_after (A : Type) (P : event -> Prop) (m : M A) (w w' : world)
      (r : result A) :
  grows P m -> m w = (r, w') ->
  exists evs, trace w' = (trace w ++ evs)%list /\ Forall P evs.
Proof. intros G E. destruct (G w) as [evs HE]. rewrite E in HE. eauto. Qed.

(** ** [unwind_positions] on an absent order *)

Lemma unwind_loop_stops_at_none (pre post : list value) :
  Forall unwindable pre ->
  forall acc w,
  exists sent w',
    unwind_loop bot (pre ++ VNone :: post) acc w = (Raise TypeError, w')
    /\ sent_in (trace w') = (sent_in (trace w) ++ sent)%list
    /\ Forall2 (order_for bot unwind_order) pre sent.
Proof.
  induction 1 as [|o os Ho _ IH]; intros acc w.
  - exists [], w. rewrite app_nil_r. repeat split. constructor.
  - destruct (unwind_params_run o w Ho) as (params & Ep & Hrel & Hk).
    cbn [app unwind_loop]. unfold bind at 1. rewrite Ep.
    unfold bind at 1. rewrite make_request_post.
    set (r := mkRequest POST _ _ _).
    set (a := exchange (tick w) r).
    destruct (IH (acc ++ [answer_value a])%list (recorded (tick w) r a))
      as (sent & w' & Erun & Esent & Hall).
    exists ((r, a) :: sent), w'. split; [exact Erun|]. split.
    + rewrite Esent, sent_in_recorded. now rewrite <- app_assoc.
    + constructor; [|assumption].
      exists params. split; [reflexivity | assumption].
Qed.

Lemma unwind_loop_raises (orders : list value) :
  In VNone orders ->
  forall acc w, exists e w', unwind_loop bot orders acc w = (Raise e, w').
Proof.
  induction orders as [|o os IH]; intros Hin acc w; [contradiction|].
  cbn [unwind_loop]. unfold bind at 1.
  destruct (unwind_params o w) as [[params|e] w1] eqn:Ep; [|eauto].
  assert (Hos : In VNone os).
  { destruct Hin as [-> | Hin]; [discriminate Ep | assumption]. }
  unfold bind at 1.
  destruct (_make_request bot _ _ _ w1) as [[response|e] w2]; [|eauto].
  now apply IH.
Qed.

(** C10. Given a list with an absent entry -- what [hedge_positions]
    returns for a failed submission -- [unwind_positions] raises when it
    reaches that entry: the orders before it have been submitted, none is
    for the entries after it, and [main], when its hedge responses contain
    such an entry, leaves through the handler of unexpected exceptions with
    exit code 1. *)
Theorem unwind_aborts_on_absent_order :
  (forall pre post w,
      Forall unwindable pre ->
      exists sent w',
        unwind_positions bot (pre ++ VNone :: post) w = (Raise TypeError, w')
        /\ sent_in (trace w') = (sent_in (trace w) ++ sent)%list
        /\ Forall2 (order_for bot unwind_order) pre sent)
  /\ (forall orders w,
        In VNone orders ->
        exists e w', unwind_positions bot orders w = (Raise e, w'))
  /\ (forall w w1 w3 w4 p ps a adjust hedged,
        get_positions bot (started w) = (Ok (Some (p :: ps)), w1) ->
        select_loop bot (p :: ps) [] (logged INFO "Current timestamp" (tick w1))
        = (Ok (a :: adjust), w3) ->
        hedge_positions bot (a :: adjust)
                        (logged INFO "Positions requiring hedging" w3)
        = (Ok hedged, w4) ->
        In VNone hedged ->
        exists w', run bot w = (1%Z, w')).
Proof.
  split; [|split].
  - intros pre post w Hpre. now apply unwind_loop_stops_at_none.
  - intros orders w Hin. now apply unwind_loop_raises.
  - intros w w1 w3 w4 p ps a adjust hedged Eg Esel Eh Hin.
    unfold run. rewrite (workflow_selection _ _ _ _ _ _ Eg Esel).
    unfold bind at 1. rewrite Eh.
    unfold bind at 1. cbn [log emit].
    unfold bind at 1. cbn [log emit].
    unfold bind at 1. cbn [sleep emit].
    unfold bind at 1. unfold unwind_positions.
    match goal with
    | |- context [unwind_loop bot hedged [] ?w0] =>
        destruct (unwind_loop_raises hedged Hin [] w0) as (e & w' & ->)
    end.
    eauto.
Qed.

(** ** A funding rate that could not be fetched *)

Lemma needs_hedge_without_funding (side : value) :
  side = VStr "LONG" \/ side = VStr "SHORT" ->
  needs_hedge side VNone = Raise AttributeError.
Proof. intros [-> | ->]; reflexivity. Qed.

Lemma select_loop_aborts_without_funding
      (position symbol side : value) (rest adjust : list value) (w : world) :
  Py.subscript position "symbol" = Ok symbol ->
  Py.subscript position "positionSide" = Ok side ->
  side = VStr "LONG" \/ side = VStr "SHORT" ->
  exchange w (funding_request bot symbol) = None ->
  exists w',
    select_loop bot (position :: rest) adjust w = (Raise AttributeError, w')
    /\ sent_in (trace w')
       = (sent_in (trace w) ++ [(funding_request bot symbol, None)])%list.
Proof.
  intros Es Ep Hside Ex. cbn [select_loop]. unfold bind.
  rewrite (select_step_run _ _ _ adjust w Es Ep), Ex. simpl answer_value.
  rewrite (needs_hedge_without_funding _ Hside).
  eexists. split; [reflexivity|]. apply sent_in_recorded.
Qed.

End Properties.

(* ================================================================== *)
(** * The properties at work on the sample runs *)

(** C1. Two open positions, the funding rate of the first cannot be
    fetched: [main] does not go on to the second position.  The absent
    funding object is used as if it were there, the exception reaches the
    handler of [main], and the process exits with code 1 after two
    requests. *)
Theorem funding_failure_aborts_main :
  fst (@main Sample.funding_down start) = 1%Z
  /\ map (fun ra => (req_url (fst ra), snd ra))
         (sent_in (trace (snd (@main Sample.funding_down start))))
     = [("https://fapi.binance.com/fapi/v3/positionRisk",
         Some (VList [Sample.position "BTCUSDT" "LONG" "1.0";
                      Sample.position "ETHUSDT" "SHORT" "-2.5"]));
        ("https://fapi.binance.com/fapi/v1/premiumIndex?symbol=BTCUSDT", None)].
Proof. split; vm_compute; reflexivity. Qed.

(** C9. One open LONG position whose funding rate cannot be fetched: the
    test of the position does not hold, [main] submits no order and does
    not wait, yet the process exits with code 1 and not with code 0.  The
    exception is the one of C1: the absent funding object is used as if it
    were there. *)
Theorem unselected_position_exits_with_code_1 :
  fst (@main Sample.one_long_funding_down start) = 1%Z
  /\ Forall not_an_order (trace (snd (@main Sample.one_long_funding_down start)))
  /\ map (fun ra => (req_url (fst ra), snd ra))
         (sent_in (trace (snd (@main Sample.one_long_funding_down start))))
     = [("https://fapi.binance.com/fapi/v3/positionRisk",
         Some (VList [Sample.position "BTCUSDT" "LONG" "1.0"]));
        ("https://fapi.binance.com/fapi/v1/premiumIndex?symbol=BTCUSDT", None)]
  /\ @needs_hedge Sample.one_long_funding_down (VStr "LONG") VNone
     = Raise AttributeError.
Proof.
  split; [vm_compute; reflexivity|].
  split; [vm_compute; repeat constructor|].
  split; vm_compute; reflexivity.
Qed.

Section OneLong.

#[local] Existing Instance Sample.one_long.

Lemma two_positions_hedgeable : Forall hedgeable Sample.two_positions.
Proof.
  repeat constructor.
  - exists (VStr "BTCUSDT"), (VStr "LONG"), (VStr "1.0"),
      (S754_finite false 4503599627370496 (-52)).
    repeat split; vm_compute; reflexivity.
  - exists (VStr "ETHUSDT"), (VStr "SHORT"), (VStr "-2.5"),
      (S754_finite true 5629499534213120 (-51)).
    repeat split; vm_compute; reflexivity.
Defined.


Lemma hedge_orders_oppose_positions_witness :
  Forall hedgeable Sample.two_positions
  /\ exists sent w',
      hedge_positions Sample.bot Sample.two_positions start
      = (Ok (map (fun ra => answer_value (snd ra)) sent), w')
      /\ sent_in (trace w') = (sent_in (trace start) ++ sent)%list
      /\ Forall2 (order_for Sample.bot hedge_order) Sample.two_positions sent.
Proof.
  split; [exact two_positions_hedgeable|].
  exact (hedge_orders_oppose_positions Sample.bot Sample.two_positions start
           two_positions_hedgeable).
Defined.



End OneLong.

Section SomeFlat.

#[local] Existing Instance Sample.some_flat.

Lemma four_positions_readable : Forall amount_readable Sample.four_positions.
Proof.
  repeat constructor.
  - exists (S754_finite false 4503599627370496 (-52)). vm_compute. reflexivity.
  - exists (S754_zero false). vm_compute. reflexivity.
  - exists (S754_finite true 5629499534213120 (-51)). vm_compute. reflexivity.
  - exists (S754_zero false). vm_compute. reflexivity.
Defined.

Lemma get_positions_keeps_nonzero_witness :
  exchange (tick start) (positions_request Sample.bot (clock_ms (reads start)))
  = Some (VList Sample.four_positions)
  /\ Sample.four_positions <> []
  /\ Forall amount_readable Sample.four_positions
  /\ exists w',
      get_positions Sample.bot start
      = (Ok (Some [Sample.position "BTCUSDT" "LONG" "1.0";
                   Sample.position "XRPUSDT" "SHORT" "-2.5"]), w').
Proof.
  assert (Hex : exchange (tick start)
                         (positions_request Sample.bot (clock_ms (reads start)))
                = Some (VList Sample.four_positions))
    by (vm_compute; reflexivity).
  assert (Hne : Sample.four_positions <> []) by discriminate.
  split; [exact Hex|]. split; [exact Hne|].
  split; [exact four_positions_readable|].
  destruct (get_positions_keeps_nonzero Sample.bot start Sample.four_positions
              Hex Hne four_positions_readable) as [w' [E _]].
  exists w'. rewrite E. vm_compute. reflexivity.
Defined.

End SomeFlat.

Section Rejected.

#[local] Existing Instance Sample.one_long_rejected.

Lemma two_positions_hedgeable_rejected : Forall hedgeable Sample.two_positions.
Proof.
  repeat constructor.
  - exists (VStr "BTCUSDT"), (VStr "LONG"), (VStr "1.0"),
      (S754_finite false 4503599627370496 (-52)).
    repeat split; vm_compute; reflexivity.
  - exists (VStr "ETHUSDT"), (VStr "SHORT"), (VStr "-2.5"),
      (S754_finite true 5629499534213120 (-51)).
    repeat split; vm_compute; reflexivity.
Defined.

(** Every submission fails: both orders are sent all the same, and the
    output is [[None, None]]. *)
Lemma two_hedges_unwindable_rejected : Forall unwindable Sample.two_hedges.
Proof.
  repeat constructor.
  - eexists _, (VStr "BTCUSDT"), (VStr "SHORT"),
      (S754_finite false 4503599627370496 (-52)).
    repeat split; vm_compute; reflexivity.
  - eexists _, (VStr "ETHUSDT"), (VStr "LONG"), (S754_zero false).
    repeat split; vm_compute; reflexivity.
Defined.

(** Every submission fails: both orders are sent all the same, and the
    output is [[None, None]]. *)
Lemma orders_are_submitted_independently_witness :
  (Forall hedgeable Sample.two_positions
   /\ exists sent w',
       hedge_positions Sample.bot Sample.two_positions start
       = (Ok [VNone; VNone], w')
       /\ sent_in (trace w') = (sent_in (trace start) ++ sent)%list
       /\ Forall2 (order_for Sample.bot hedge_order) Sample.two_positions sent)
  /\ (Forall unwindable Sample.two_hedges
      /\ exists sent w',
          unwind_positions Sample.bot Sample.two_hedges start
          = (Ok [VNone; VNone], w')
          /\ sent_in (trace w') = (sent_in (trace start) ++ sent)%list
          /\ Forall2 (order_for Sample.bot unwind_order) Sample.two_hedges sent).
Proof.
  split.
  - split; [exact two_positions_hedgeable_rejected|].
    destruct (proj1 (orders_are_submitted_independently Sample.bot)
                Sample.two_positions start two_positions_hedgeable_rejected)
      as (sent & out & w' & E & Esent & Hrel & _).
    exists sent, w'. split; [|split; assumption].
    rewrite E. generalize E. vm_compute. intros [= <- _]. reflexivity.
  - split; [exact two_hedges_unwindable_rejected|].
    destruct (proj2 (orders_are_submitted_independently Sample.bot)
                Sample.two_hedges start two_hedges_unwindable_rejected)
      as (sent & out & w' & E & Esent & Hrel & _).
    exists sent, w'. split; [|split; assumption].
    rewrite E. generalize E. vm_compute. intros [= <- _]. reflexivity.
Defined.

Lemma unwind_aborts_on_absent_order_witness :
  let w1 := snd (get_positions Sample.bot (started start)) in
  let w3 := snd (select_loop Sample.bot [Sample.position "BTCUSDT" "LONG" "1.0"] []
                             (logged INFO "Current timestamp" (tick w1))) in
  let w4 := snd (hedge_positions Sample.bot [Sample.position "BTCUSDT" "LONG" "1.0"]
                                 (logged INFO "Positions requiring hedging" w3)) in
  get_positions Sample.bot (started start)
  = (Ok (Some [Sample.position "BTCUSDT" "LONG" "1.0"]), w1)
  /\ select_loop Sample.bot [Sample.position "BTCUSDT" "LONG" "1.0"] []
                 (logged INFO "Current timestamp" (tick w1))
     = (Ok [Sample.position "BTCUSDT" "LONG" "1.0"], w3)
  /\ hedge_positions Sample.bot [Sample.position "BTCUSDT" "LONG" "1.0"]
                     (logged INFO "Positions requiring hedging" w3)
     = (Ok [VNone], w4)
  /\ In VNone [VNone]
  /\ (exists w', run Sample.bot start = (1%Z, w'))
  /\ Forall unwindable Sample.two_hedges
  /\ exists sent w',
      unwind_positions Sample.bot (Sample.two_hedges ++ VNone :: Sample.two_hedges)
                       start
      = (Raise TypeError, w')
      /\ sent_in (trace w') = (sent_in (trace start) ++ sent)%list
      /\ Forall2 (order_for Sample.bot unwind_order) Sample.two_hedges sent.
Proof.
  intros w1 w3 w4.
  assert (E1 : get_positions Sample.bot (started start)
               = (Ok (Some [Sample.position "BTCUSDT" "LONG" "1.0"]), w1))
    by (vm_compute; reflexivity).
  assert (E2 : select_loop Sample.bot [Sample.position "BTCUSDT" "LONG" "1.0"] []
                           (logged INFO "Current timestamp" (tick w1))
               = (Ok [Sample.position "BTCUSDT" "LONG" "1.0"], w3))
    by (vm_compute; reflexivity).
  assert (E3 : hedge_positions Sample.bot [Sample.position "BTCUSDT" "LONG" "1.0"]
                               (logged INFO "Positions requiring hedging" w3)
               = (Ok [VNone], w4))
    by (vm_compute; reflexivity).
  assert (E4 : In VNone [VNone]) by (left; reflexivity).
  repeat (split; [assumption|]).
  split; [|split].
  - exact (proj2 (proj2 (unwind_aborts_on_absent_order Sample.bot))
             start w1 w3 w4 _ _ _ _ _ E1 E2 E3 E4).
  - exact two_hedges_unwindable_rejected.
  - exact (proj1 (unwind_aborts_on_absent_order Sample.bot)
             Sample.two_hedges Sample.two_hedges start
             two_hedges_unwindable_rejected).
Defined.

End Rejected.

(* ================================================================== *)
(** * Test vectors and sample runs *)

Example sha256_abc :
  SHA256.hexdigest (Bytes.of_string "abc")
  = "ba7816bf8f01cfea414140de5dae2223b00361a396177a9cb410ff61f20015ad".
Proof. vm_compute. reflexivity. Qed.

Example sha256_empty :
  SHA256.hexdigest []
  = "e3b0c44298fc1c149afbf4c8996fb92427ae41e4649b934ca495991b7852b855".
Proof. vm_compute. reflexivity. Qed.

Example sha256_two_blocks :
  SHA256.hexdigest
    (Bytes.of_string "abcdbcdecdefdefgefghfghighijhijkijkljklmklmnlmnomnopnopq")
  = "248d6a61d20638b8e5c026930c3e6039a33ce45964ff2167f6ecedd419db06c1".
Proof. vm_compute. reflexivity. Qed.

Example hmac_rfc4231_case2 :
  HMAC.hexdigest (Bytes.of_string "Jefe")
                 (Bytes.of_string "what do ya want for nothing?")
  = "5bdcc146bf60754e6a042426089575c75a003f089d2739839dec58b964ec3843".
Proof. vm_compute. reflexivity. Qed.

(** A key longer than a block is hashed first. *)
Example hmac_long_key :
  HMAC.hexdigest (repeat 107%N 100) (repeat 120%N 200)
  = "e326f00ce14194bb85e2683fe9b1a78851753f77479303f94c2c3cd1998bdda3".
Proof. vm_compute. reflexivity. Qed.

Example threshold_bits : threshold = S754_finite false 4611686018427388 (-63).
Proof. vm_compute. reflexivity. Qed.

Example float_of_rate_text :
  Text.parse_float "0.00050000" = Some threshold
  /\ Text.parse_float "0.0006" = Some (F64.of_decimal false 6 (-4))
  /\ Text.parse_float " -2.5e0 " = Some (S754_finite true 5629499534213120 (-51))
  /\ Text.parse_float "1_000" = Some (F64.of_decimal false 1 3)
  /\ Text.parse_float "Infinity" = Some (S754_infinity false)
  /\ Text.parse_float "1.0.0" = None
  /\ Text.parse_float "" = None.
Proof. repeat split; vm_compute; reflexivity. Qed.

Example repr_of_floats :
  Text.repr (F64.of_decimal false 1 0) = "1.0"
  /\ Text.repr (F64.of_decimal true 25 (-1)) = "-2.5"
  /\ Text.repr threshold = "0.0005"
  /\ Text.repr (F64.of_decimal false 1 (-5)) = "1e-05"
  /\ Text.repr (F64.of_decimal false 1 16) = "1e+16"
  /\ Text.repr (F64.of_decimal false 123456789 (-4)) = "12345.6789"
  /\ Text.repr (F64.of_ratio false 1 3) = "0.3333333333333333".
Proof. repeat split; vm_compute; reflexivity. Qed.

Example str_of_ints :
  Py.str_int 1700000000500 = "1700000000500"
  /\ Py.str_int 0 = "0" /\ Py.str_int (-42) = "-42".
Proof. repeat split; vm_compute; reflexivity. Qed.

(** One LONG position of 1.0 on BTCUSDT with a funding rate of 0.001: one
    hedge order SELL / SHORT of 1.0, the wait, one unwind order BUY / SHORT
    of the hedge's [origQty], and exit code 0. *)
Example one_long_is_hedged_then_unwound :
  fst (@main Sample.one_long start) = 0%Z
  /\ map (fun ra => match req_params (fst ra) with
                    | Some params => @query_string Sample.one_long params
                    | None => ""
                    end)
         (orders_in (trace (snd (@main Sample.one_long start))))
     = ["symbol=BTCUSDT&side=SELL&type=MARKET&positionSide=SHORT&quantity=1.0&timestamp=1700000000500&signature=3263644a1fd85f51cadd0e1c305ce0e4f06dccb9d163c9347477de39a74363e6";
        "symbol=BTCUSDT&side=BUY&type=MARKET&positionSide=SHORT&quantity=1.0&timestamp=1700000000750&signature=9b4e2fa14726506947e841b81d9ccff06b5ad4fa1b3bd1c2197e32f75a6046ba"]
  /\ filter (fun e => match e with Slept _ => true | _ => false end)
            (trace (snd (@main Sample.one_long start)))
     = [Slept 60].
Proof. repeat split; vm_compute; reflexivity. Qed.

(** No open position, or rates inside the band: exit code 0, no order. *)
Example quiet_runs :
  fst (@main Sample.no_positions start) = 0%Z
  /\ orders_in (trace (snd (@main Sample.no_positions start))) = []
  /\ fst (@main Sample.quiet start) = 0%Z
  /\ orders_in (trace (snd (@main Sample.quiet start))) = [].
Proof. repeat split; vm_compute; reflexivity. Qed.

(** The hedge order is refused: no unwind order, exit code 1. *)
Example rejected_hedge_run :
  fst (@main Sample.one_long_rejected start) = 1%Z
  /\ map snd (orders_in (trace (snd (@main Sample.one_long_rejected start))))
     = [None].
Proof. repeat split; vm_compute; reflexivity. Qed.

(** Without credentials nothing is sent. *)
Example configuration_error :
  @main {| float_of_str := Text.parse_float;
           repr_float := Text.repr;
           repr_container := fun _ => "";
           clock_ms := fun _ => 0%Z;
           exchange := fun _ _ => None;
           keyring_get_password := fun _ _ => None;
           environ_get := fun _ => None |} start
  = (1%Z, start).
Proof. reflexivity. Qed.

(* ================================================================== *)
(** * Further properties of the client *)

Section Further.

Context `{Env}.
Variable bot : BinanceBot.

(** ** The constructor *)

Lemma or_else_missing (a b : option string) :
  missing (or_else a b) <-> missing a /\ missing b.
Proof.
  unfold missing, or_else. destruct a as [x|].
  - destruct (String.eqb_spec x "") as [->|Hx].
    + intuition congruence.
    + split; [intros [E|E]; [discriminate | congruence]|].
      intros [[E|E] _]; congruence.
  - intuition congruence.
Qed.

Lemma or_else_given (a b : option string) (x : string) :
  a = Some x -> x <> "" -> or_else a b = Some x.
Proof.
  intros -> Hx. unfold or_else.
  now destruct (String.eqb_spec x "").
Qed.

Lemma or_else_fallback (a b : option string) : missing a -> or_else a b = b.
Proof. intros [-> | ->]; reflexivity. Qed.

Lemma init_outcome (key secret url : option string) :
  let k := or_else key (keyring_get_password "BINANCE_API_KEY" "BINANCE_API_KEY") in
  let s := or_else secret
             (keyring_get_password "BINANCE_API_SECRET" "BINANCE_API_SECRET") in
  (missing k \/ missing s -> BinanceBot_init key secret url = Raise ValueError)
  /\ (~ (missing k \/ missing s) ->
      exists b, BinanceBot_init key secret url = Ok b
                /\ Some (api_key b) = k /\ Some (api_secret b) = s).
Proof.
  intros k s. unfold BinanceBot_init. fold k. fold s. unfold missing.
  destruct k as [k'|], s as [s'|];
    try (split; [reflexivity | intros Hn; exfalso; apply Hn; auto]).
  destruct (String.eqb_spec k' "") as [->|Hk];
    [split; [reflexivity | intros Hn; exfalso; apply Hn; auto]|].
  destruct (String.eqb_spec s' "") as [->|Hs];
    [split; [reflexivity | intros Hn; exfalso; apply Hn; auto]|].
  simpl. split.
  - intros [[E|E]|[E|E]]; congruence.
  - intros _. eexists. repeat split.
Qed.

(** X1. The test of the constructor raises [ValueError] exactly when, for
    the key or for the secret, neither the argument nor the credential
    store gives a non-empty string; a bot that has passed the test has a
    key and a secret that are not empty. *)
Theorem constructor_needs_both_credentials (key secret url : option string) :
  (BinanceBot_init key secret url = Raise ValueError
   <-> (missing key
        /\ missing (keyring_get_password "BINANCE_API_KEY" "BINANCE_API_KEY"))
       \/ (missing secret
           /\ missing (keyring_get_password "BINANCE_API_SECRET"
                                            "BINANCE_API_SECRET")))
  /\ (forall b,
        BinanceBot_init key secret url = Ok b ->
        api_key b <> "" /\ api_secret b <> "").
Proof.
  destruct (init_outcome key secret url) as [Hbad Hgood].
  rewrite !or_else_missing in Hbad, Hgood.
  set (K := missing key /\ missing (keyring_get_password _ _)) in *.
  set (S := missing secret /\ missing (keyring_get_password _ _)) in *.
  assert (Hdec : (K \/ S) \/ ~ (K \/ S)).
  { unfold K, S, missing.
    destruct key as [[|c k]|], secret as [[|c' s]|];
      destruct (keyring_get_password "BINANCE_API_KEY" "BINANCE_API_KEY")
        as [[|c1 k1]|];
      destruct (keyring_get_password "BINANCE_API_SECRET" "BINANCE_API_SECRET")
        as [[|c2 s2]|];
      try (left; left; split; auto; fail);
      try (left; right; split; auto; fail);
      right; intros [[[E|E] [E'|E']]|[[E|E] [E'|E']]]; discriminate. }
  split.
  - split; [|exact Hbad].
    intros E. destruct Hdec as [Hd|Hn]; [exact Hd|].
    destruct (Hgood Hn) as (b & Eb & _). congruence.
  - intros b Eb. destruct Hdec as [Hd|Hn]; [rewrite (Hbad Hd) in Eb; discriminate|].
    destruct (Hgood Hn) as (b' & Eb' & Ek & Es).
    assert (b' = b) by congruence. subst b'.
    split; intros E; apply Hn.
    + left. apply or_else_missing. rewrite <- Ek, E. now right.
    + right. apply or_else_missing. rewrite <- Es, E. now right.
Qed.

(** X2. In the constructor a non-empty argument wins over the credential
    store and over the environment; an argument that is absent or empty
    falls back to the store, and for the base URL to [BINANCE_BASE_URL]
    when it is set, else to [https://fapi.binance.com]. *)
Theorem constructor_precedence (key secret url : option string) (b : BinanceBot) :
  BinanceBot_init key secret url = Ok b ->
  (forall k, key = Some k -> k <> "" -> api_key b = k)
  /\ (missing key ->
      keyring_get_password "BINANCE_API_KEY" "BINANCE_API_KEY"
      = Some (api_key b))
  /\ (forall s, secret = Some s -> s <> "" -> api_secret b = s)
  /\ (missing secret ->
      keyring_get_password "BINANCE_API_SECRET" "BINANCE_API_SECRET"
      = Some (api_secret b))
  /\ (forall u, url = Some u -> u <> "" -> base_url b = u)
  /\ (missing url ->
      forall e, environ_get "BINANCE_BASE_URL" = Some e -> base_url b = e)
  /\ (missing url ->
      environ_get "BINANCE_BASE_URL" = None ->
      base_url b = "https://fapi.binance.com").
Proof.
  intros Eb.
  destruct (init_outcome key secret url) as [Hbad Hgood].
  assert (Hn : ~ (missing (or_else key (keyring_get_password
                                          "BINANCE_API_KEY" "BINANCE_API_KEY"))
                  \/ missing (or_else secret (keyring_get_password
                                                "BINANCE_API_SECRET"
                                                "BINANCE_API_SECRET")))).
  { intros Hm. rewrite (Hbad Hm) in Eb. discriminate. }
  destruct (Hgood Hn) as (b' & Eb' & Ek & Es).
  assert (b' = b) by congruence. subst b'.
  repeat split.
  - intros k Hk Hne. rewrite (or_else_given _ _ _ Hk Hne) in Ek. congruence.
  - intros Hm. now rewrite (or_else_fallback _ _ Hm) in Ek.
  - intros s Hs Hne. rewrite (or_else_given _ _ _ Hs Hne) in Es. congruence.
  - intros Hm. now rewrite (or_else_fallback _ _ Hm) in Es.
  - intros u Hu Hne. clear Eb'. unfold BinanceBot_init in Eb.
    rewrite (or_else_given url _ _ Hu Hne) in Eb.
    destruct (or_else key _) as [k'|]; [|discriminate].
    destruct (or_else secret _) as [s'|]; [|discriminate].
    destruct (orb _ _); [discriminate|]. now inversion Eb.
  - intros Hm e He. clear Eb'. unfold BinanceBot_init in Eb.
    rewrite (or_else_fallback url _ Hm), He in Eb.
    destruct (or_else key _) as [k'|]; [|discriminate].
    destruct (or_else secret _) as [s'|]; [|discriminate].
    destruct (orb _ _); [discriminate|]. now inversion Eb.
  - intros Hm He. clear Eb'. unfold BinanceBot_init in Eb.
    rewrite (or_else_fallback url _ Hm), He in Eb.
    destruct (or_else key _) as [k'|]; [|discriminate].
    destruct (or_else secret _) as [s'|]; [|discriminate].
    destruct (orb _ _); [discriminate|]. now inversion Eb.
Qed.


(** ** The method of a request *)

(** X4. [_make_request] reads its method, an ASCII text, without regard to
    case, and for a method that is neither GET nor POST it raises
    [ValueError] -- which its handler of request failures does not catch
    -- before anything is sent. *)
Theorem method_is_case_blind_and_checked
        (method endpoint : string) (params : option Dict.t) (w : world) :
  ascii_text method ->
  (Py.upper method = "GET" ->
   _make_request bot method endpoint params w
   = _make_request bot "GET" endpoint params w)
  /\ (Py.upper method = "POST" ->
      _make_request bot method endpoint params w
      = _make_request bot "POST" endpoint params w)
  /\ (Py.upper method <> "GET" -> Py.upper method <> "POST" ->
      _make_request bot method endpoint params w = (Raise ValueError, w)).
Proof.
  intros _. unfold _make_request, bind at 1 3 5, lift.
  split; [|split].
  - intros ->. reflexivity.
  - intros ->. reflexivity.
  - intros Hg Hp.
    destruct (String.eqb_spec (Py.upper method) "GET"); [contradiction|].
    destruct (String.eqb_spec (Py.upper method) "POST"); [contradiction|].
    reflexivity.
Qed.

(** ** What a run sends *)

Lemma grows_post (P : event -> Prop) (endpoint : string) (params : option Dict.t) :
  (forall a,
      P (Sent (mkRequest POST (base_url bot ++ endpoint)
                         [("X-MBX-APIKEY", api_key bot)] params) a)) ->
  P (Logged ERROR "Request failed") ->
  grows P (_make_request bot "POST" endpoint params).
Proof.
  intros HS HL w. rewrite make_request_post. simpl.
  destruct (exchange w _) as [json|]; eexists; (split; [reflexivity|]);
    repeat constructor; auto.
Qed.

Lemma order_is_expected (params : Dict.t) (a : option value) :
  Dict.keys params = order_keys ->
  expected_event bot
    (Sent (mkRequest POST (base_url bot ++ "/fapi/v1/order")
                     [("X-MBX-APIKEY", api_key bot)]
                     (Some (signed bot params))) a).
Proof.
  intros Hk. split; [reflexivity|]. left.
  repeat split. apply signed_is_signed_last. now apply order_keys_unsigned.
Qed.

Lemma get_positions_expected : grows (expected_event bot) (get_positions bot).
Proof.
  unfold get_positions.
  apply grows_seq; [apply grows_now | intros ts].
  apply grows_seq.
  - apply grows_get; [|exact I].
    intros a. split; [reflexivity|]. right. left.
    repeat split. apply signed_is_signed_last.
    simpl. intros [E|[]]. discriminate.
  - intros positions. destruct (Py.truthy positions); [|apply grows_ret].
    repeat (apply grows_seq; [apply grows_lift | intros ?]).
    apply grows_ret.
Qed.

Lemma select_loop_expected (positions adjust : list value) :
  grows (expected_event bot) (select_loop bot positions adjust).
Proof.
  revert adjust; induction positions as [|p ps IH]; intros adjust; simpl.
  - apply grows_ret.
  - apply grows_seq; [|intros; apply IH].
    unfold select_step.
    apply grows_seq; [apply grows_lift | intros symbol].
    apply grows_seq; [apply grows_lift | intros side].
    apply grows_seq.
    + apply grows_get; [|exact I].
      intros a. split; [reflexivity|]. right. right.
      repeat split. now exists symbol.
    + intros funding.
      apply grows_seq; [apply grows_lift | intros chosen].
      destruct chosen; [|apply grows_ret].
      apply grows_seq; [now apply grows_emit | intros; apply grows_ret].
Qed.

Lemma hedge_loop_expected (positions acc : list value) :
  grows (expected_event bot) (hedge_loop bot positions acc).
Proof.
  revert acc; induction positions as [|p ps IH]; intros acc; simpl.
  - apply grows_ret.
  - eapply grows_bind;
      [apply grows_hedge_params | apply hedge_params_keys |].
    intros params Hk. simpl in Hk.
    apply grows_seq; [|intros; apply IH].
    apply grows_post; [|exact I]. intros a. now apply order_is_expected.
Qed.

Lemma unwind_loop_expected (orders acc : list value) :
  grows (expected_event bot) (unwind_loop bot orders acc).
Proof.
  revert acc; induction orders as [|o os IH]; intros acc; simpl.
  - apply grows_ret.
  - eapply grows_bind;
      [apply grows_unwind_params | apply unwind_params_keys |].
    intros params Hk. simpl in Hk.
    apply grows_seq; [|intros; apply IH].
    apply grows_post; [|exact I]. intros a. now apply order_is_expected.
Qed.

Lemma workflow_expected : grows (expected_event bot) (workflow bot).
Proof.
  unfold workflow.
  apply grows_seq; [now apply grows_emit | intros _].
  apply grows_seq; [apply get_positions_expected | intros positions].
  destruct positions as [[|p ps]|]; try (now apply grows_emit).
  apply grows_seq; [apply grows_now | intros ts].
  apply grows_seq; [now apply grows_emit | intros _].
  apply grows_seq; [apply select_loop_expected | intros adjust].
  apply grows_seq; [now apply grows_emit | intros _].
  destruct adjust as [|a adjust]; [now apply grows_emit|].
  apply grows_seq; [apply hedge_loop_expected | intros hedged].
  apply grows_seq; [now apply grows_emit | intros _].
  apply grows_seq; [now apply grows_emit | intros _].
  apply grows_seq; [now apply grows_emit | intros _].
  apply grows_seq; [apply unwind_loop_expected | intros unwound].
  now apply grows_emit.
Qed.

(** X5. Whatever the exchange answers and however the run ends, every
    request of a run carries the API key as its only header and is one of
    three: a signed POST to [/fapi/v1/order], the signed GET of
    [/fapi/v3/positionRisk], or a GET of [/fapi/v1/premiumIndex?symbol=...]
    without parameters; and every wait lasts 60 seconds. *)
Theorem run_sends_only_expected_requests (w : world) :
  exists evs,
    trace (snd (run bot w)) = (trace w ++ evs)%list
    /\ Forall (expected_event bot) evs.
Proof.
  unfold run. destruct (workflow_expected w) as (evs & E & F).
  destruct (workflow bot w) as [[u|e] w']; simpl in *.
  - exists evs. auto.
  - exists (evs ++ [Logged ERROR "An error occurred"])%list.
    rewrite E, <- app_assoc. split; [reflexivity|].
    apply Forall_app. split; [assumption | repeat constructor].
Qed.

(** ** [get_positions] on answers that are not a list of positions *)

(** X6. [get_positions] returns [None] when the request fails and also when
    the exchange answers with an empty list, an empty object or [null]:
    its caller cannot tell a failure from an empty account. *)
Theorem get_positions_none_for_failure_and_empty (w : world) :
  let a := exchange (tick w) (positions_request bot (clock_ms (reads w))) in
  a = None \/ a = Some (VList []) \/ a = Some (VDict []) \/ a = Some VNone ->
  get_positions bot w
  = (Ok None, recorded (tick w) (positions_request bot (clock_ms (reads w))) a).
Proof.
  intros a Ha. rewrite get_positions_run. fold a.
  destruct Ha as [-> | [-> | [-> | ->]]]; reflexivity.
Qed.

Lemma filter_r_raises (items : list value) :
  Exists (fun p => exists e, amount p = Raise e) items ->
  exists e, filter_r has_amount items = Raise e.
Proof.
  induction items as [|x rest IH]; intros Hex; [inversion Hex|].
  cbn [filter_r]. rewrite has_amount_amount.
  destruct (amount x) as [f|e] eqn:Ex; [|eauto].
  destruct IH as [e' ->]; [|eauto].
  inversion Hex as [? ? [e He]|]; subst; [congruence | assumption].
Qed.

(** X7. [get_positions] does not guard the shape of a successful answer:
    a non-empty JSON object raises [AttributeError], and a list with an
    element that is not an object, or whose [positionAmt] does not convert
    to a float, raises as well. *)
Theorem get_positions_raises_on_malformed_answer (w : world) :
  let a := exchange (tick w) (positions_request bot (clock_ms (reads w))) in
  (forall kv d,
      a = Some (VDict (kv :: d)) ->
      fst (get_positions bot w) = Raise AttributeError)
  /\ (forall items,
        a = Some (VList items) ->
        Exists (fun p => exists e, amount p = Raise e) items ->
        exists e, fst (get_positions bot w) = Raise e).
Proof.
  intros a. split.
  - intros [k v] d Ea. rewrite get_positions_run. fold a. rewrite Ea. reflexivity.
  - intros items Ea Hex. rewrite get_positions_run. fold a. rewrite Ea.
    destruct items as [|x rest]; [inversion Hex|].
    cbn [answer_value Py.truthy Py.iter fst].
    destruct (filter_r_raises _ Hex) as [e ->]. eauto.
Qed.

(** ** Timestamps *)

Lemma get_set_other (k k' : string) (v : value) (d : Dict.t) :
  k <> k' -> Dict.get k (Dict.set k' v d) = Dict.get k d.
Proof.
  intros Hne. induction d as [|[k0 v0] d IH]; cbn [Dict.set Dict.get].
  - destruct (String.eqb_spec k k'); [contradiction | reflexivity].
  - destruct (String.eqb_spec k' k0) as [->|Hk0]; cbn [Dict.get].
    + destruct (String.eqb_spec k k0); [contradiction | reflexivity].
    + destruct (String.eqb_spec k k0); [reflexivity | exact IH].
Qed.

Lemma get_set_same (k : string) (v : value) (d : Dict.t) :
  Dict.get k (Dict.set k v d) = Some v.
Proof.
  induction d as [|[k0 v0] d IH]; cbn [Dict.set Dict.get].
  - now rewrite String.eqb_refl.
  - destruct (String.eqb_spec k k0) as [->|Hk0]; cbn [Dict.get].
    + now rewrite String.eqb_refl.
    + destruct (String.eqb_spec k k0); [contradiction | exact IH].
Qed.

Lemma hedge_params_stamp (position : value) (w : world) :
  hedgeable position ->
  exists params,
    hedge_params position w = (Ok params, tick w)
    /\ Dict.get "timestamp" params = Some (VInt (clock_ms (reads w))).
Proof.
  intros (symbol & side & amt & qty & Es & Ep & Ea & Eq).
  unfold hedge_params, bind, lift, now_ms, ret.
  rewrite Es, Ep, Ea, Eq. eexists. split; reflexivity.
Qed.

Lemma unwind_params_stamp (order : value) (w : world) :
  unwindable order ->
  exists params,
    unwind_params order w = (Ok params, tick w)
    /\ Dict.get "timestamp" params = Some (VInt (clock_ms (reads w))).
Proof.
  intros (d & symbol & side & qty & -> & Es & Ep & Eq).
  unfold unwind_params, bind, lift, now_ms, ret. simpl.
  rewrite Es, Ep. simpl.
  destruct (Dict.get "origQty" d) as [q|]; [rewrite Eq|];
    eexists; split; reflexivity.
Qed.

Lemma order_loop_stamps (params_of : value -> M Dict.t)
      (readable : value -> Prop) (xs : list value) :
  (forall x w, readable x ->
     exists params,
       params_of x w = (Ok params, tick w)
       /\ Dict.get "timestamp" params = Some (VInt (clock_ms (reads w)))) ->
  Forall readable xs ->
  forall acc w,
  exists sent out w',
    order_loop bot params_of xs acc w = (Ok out, w')
    /\ sent_in (trace w') = (sent_in (trace w) ++ sent)%list
    /\ reads w' = (reads w + List.length xs)%nat
    /\ forall i r a,
        nth_error sent i = Some (r, a) ->
        timestamp_of r = Some (VInt (clock_ms (reads w + i))).
Proof.
  intros Hrun. induction 1 as [|x rest Hx _ IH]; intros acc w.
  - exists [], acc, w. simpl. rewrite app_nil_r, Nat.add_0_r.
    repeat split. intros [|i] r a E; discriminate E.
  - destruct (Hrun x w Hx) as (params & Ep & Ht).
    cbn [order_loop]. unfold bind at 1. rewrite Ep.
    unfold bind at 1. rewrite make_request_post.
    set (r := mkRequest POST _ _ _).
    set (a := exchange (tick w) r).
    destruct (IH (acc ++ [answer_value a])%list (recorded (tick w) r a))
      as (sent & out & w' & Erun & Esent & Ereads & Hst).
    exists ((r, a) :: sent), out, w'. repeat split.
    + exact Erun.
    + rewrite Esent, sent_in_recorded. now rewrite <- app_assoc.
    + rewrite Ereads. simpl. lia.
    + intros [|i] r0 a0 E; simpl in E.
      * inversion E; subst r0 a0. rewrite Nat.add_0_r.
        subst r. unfold timestamp_of. cbn [req_params]. unfold signed.
        rewrite get_set_other; [exact Ht | discriminate].
      * rewrite (Hst i r0 a0 E). simpl. do 3 f_equal. lia.
Qed.

(** X8. [hedge_positions] and [unwind_positions] read the clock once per
    order: the order of the element of index [i] carries the timestamp of
    the reading number [i] after the call began, so no timestamp is shared
    across a batch. *)
Theorem each_order_has_its_own_timestamp :
  (forall positions w,
      Forall hedgeable positions ->
      exists sent out w',
        hedge_positions bot positions w = (Ok out, w')
        /\ sent_in (trace w') = (sent_in (trace w) ++ sent)%list
        /\ reads w' = (reads w + List.length positions)%nat
        /\ forall i r a,
            nth_error sent i = Some (r, a) ->
            timestamp_of r = Some (VInt (clock_ms (reads w + i))))
  /\ (forall orders w,
        Forall unwindable orders ->
        exists sent out w',
          unwind_positions bot orders w = (Ok out, w')
          /\ sent_in (trace w') = (sent_in (trace w) ++ sent)%list
          /\ reads w' = (reads w + List.length orders)%nat
          /\ forall i r a,
              nth_error sent i = Some (r, a) ->
              timestamp_of r = Some (VInt (clock_ms (reads w + i)))).
Proof.
  split.
  - intros positions w Hall. unfold hedge_positions. rewrite hedge_loop_shape.
    apply order_loop_stamps with (readable := hedgeable); [|assumption].
    intros x w0. apply hedge_params_stamp.
  - intros orders w Hall. unfold unwind_positions. rewrite unwind_loop_shape.
    apply order_loop_stamps with (readable := unwindable); [|assumption].
    intros x w0. apply unwind_params_stamp.
Qed.

(** ** A batch that stops half-way *)

Lemma hedge_params_unreadable (position : value) :
  ~ hedgeable position ->
  exists e, forall w, hedge_params position w = (Raise e, w).
Proof.
  intros Hn. unfold hedge_params, bind, lift.
  destruct (Py.subscript position "symbol") as [symbol|e] eqn:Es; [|eauto].
  destruct (Py.subscript position "positionSide") as [side|e] eqn:Ep; [|eauto].
  destruct (Py.subscript position "positionAmt") as [amt|e] eqn:Ea; [|eauto].
  destruct (py_float amt) as [qty|e] eqn:Eq; [|eauto].
  exfalso. apply Hn. now exists symbol, side, amt, qty.
Qed.

(** X9. When [hedge_positions] meets a position it cannot read -- a field
    is missing or the amount does not convert -- it raises there: the
    orders of the positions before it have been submitted, none follows,
    and the answers already received are not returned. *)
Theorem hedge_positions_stops_at_unreadable_position
        (pre post : list value) (bad : value) (w : world) :
  Forall hedgeable pre ->
  ~ hedgeable bad ->
  exists e sent w',
    hedge_positions bot (pre ++ bad :: post) w = (Raise e, w')
    /\ sent_in (trace w') = (sent_in (trace w) ++ sent)%list
    /\ Forall2 (order_for bot hedge_order) pre sent.
Proof.
  intros Hpre Hbad. destruct (hedge_params_unreadable bad Hbad) as [e He].
  exists e. unfold hedge_positions. generalize (@nil value) as acc.
  revert w. induction Hpre as [|p ps Hp _ IH]; intros w acc.
  - exists [], w. cbn [app hedge_loop]. unfold bind. rewrite He.
    rewrite app_nil_r. repeat split. constructor.
  - destruct (hedge_params_run p w Hp) as (params & Ep & Hrel & Hk).
    cbn [app hedge_loop]. unfold bind at 1. rewrite Ep.
    unfold bind at 1. rewrite make_request_post.
    set (r := mkRequest POST _ _ _).
    set (a := exchange (tick w) r).
    destruct (IH (recorded (tick w) r a) (acc ++ [answer_value a])%list)
      as (sent & w' & Erun & Esent & Hall).
    exists ((r, a) :: sent), w'. split; [exact Erun|]. split.
    + rewrite Esent, sent_in_recorded. now rewrite <- app_assoc.
    + constructor; [|assumption].
      exists params. split; [reflexivity | assumption].
Qed.

(** ** Sides and rates that select nothing *)

(** X10. A position whose side is neither LONG nor SHORT is never
    selected, and its funding object is not looked at: the turn of the
    loop succeeds even when the funding rate could not be fetched. *)
Theorem other_sides_are_never_selected
        (position symbol side : value) (adjust : list value) (w : world) :
  Py.subscript position "symbol" = Ok symbol ->
  Py.subscript position "positionSide" = Ok side ->
  side <> VStr "LONG" ->
  side <> VStr "SHORT" ->
  select_step bot position adjust w
  = (Ok adjust,
     recorded w (funding_request bot symbol)
              (exchange w (funding_request bot symbol))).
Proof.
  intros Es Ep Hl Hs. rewrite (select_step_run bot _ _ _ adjust w Es Ep).
  unfold needs_hedge, and_then.
  apply eq_str_false in Hl, Hs. now rewrite Hl, Hs.
Qed.

Lemma last_rate_default (d : Dict.t) :
  Dict.get "lastFundingRate" d = None -> last_rate (VDict d) = Ok F64.zero.
Proof. intros E. unfold last_rate, Py.get. now rewrite E. Qed.

(** X11. A rate that is not strictly above [0.0005] and not strictly below
    [-0.0005] selects no position, whatever its side; so does a funding
    object without [lastFundingRate], read as a rate of 0, and so does a
    rate that is not a number. *)
Theorem rates_inside_the_band_select_nothing (side : value) :
  (forall funding r,
      last_rate funding = Ok r ->
      SFcompare r threshold <> Some Gt ->
      SFcompare r (F64.neg threshold) <> Some Lt ->
      needs_hedge side funding = Ok false)
  /\ (forall d,
        Dict.get "lastFundingRate" d = None ->
        needs_hedge side (VDict d) = Ok false)
  /\ (forall funding,
        last_rate funding = Ok S754_nan ->
        needs_hedge side funding = Ok false).
Proof.
  assert (Hband : forall funding r,
             last_rate funding = Ok r ->
             SFcompare r threshold <> Some Gt ->
             SFcompare r (F64.neg threshold) <> Some Lt ->
             needs_hedge side funding = Ok false).
  { intros funding r Er Hg Hl.
    unfold needs_hedge, and_then, rate_above, rate_below. rewrite Er.
    assert (Eg : F64.gt r threshold = false).
    { destruct (F64.gt r threshold) eqn:E; [|reflexivity].
      apply gt_iff_compare in E. contradiction. }
    assert (El : F64.lt r (F64.neg threshold) = false).
    { destruct (F64.lt r (F64.neg threshold)) eqn:E; [|reflexivity].
      apply lt_iff_compare in E. contradiction. }
    rewrite Eg, El.
    destruct (Py.eq_str side "LONG"), (Py.eq_str side "SHORT"); reflexivity. }
  split; [exact Hband|]. split.
  - intros d Ed. apply (Hband _ _ (last_rate_default d Ed)); discriminate.
  - intros funding Er. apply (Hband _ _ Er); discriminate.
Qed.

Lemma compare_opp (a b : F64.float) :
  SFcompare (SFopp a) (SFopp b) = SFcompare b a.
Proof.
  rewrite (compare_swap a b).
  destruct a as [s|s| |s m e], b as [s'|s'| |s' m' e']; simpl;
    try reflexivity; try (destruct s; reflexivity);
    try (destruct s'; reflexivity);
    try (destruct s, s'; reflexivity).
  destruct s, s'; simpl; try reflexivity;
    destruct (e ?= e')%Z; simpl; try reflexivity;
    now rewrite ?CompOpp_involutive.
Qed.

(** X12. The two tests of the decision loop mirror each other: a LONG
    position with rate [r] is selected exactly when a SHORT position with
    rate [-r] is. *)
Theorem long_and_short_tests_are_symmetric (r : F64.float) :
  needs_hedge (VStr "LONG") (rate_object r)
  = needs_hedge (VStr "SHORT") (rate_object (F64.neg r)).
Proof.
  rewrite (needs_hedge_long (rate_object r) r eq_refl).
  rewrite (needs_hedge_short (rate_object (F64.neg r)) (F64.neg r) eq_refl).
  unfold F64.gt, F64.lt, F64.neg, SFltb. now rewrite compare_opp.
Qed.

(** X13. [hedge_positions] takes every position side other than SHORT for
    a long position: the order sells with positionSide SHORT, whatever the
    sign of the amount. *)
Theorem hedge_sells_for_every_side_but_short
        (position side : value) (w : world) :
  hedgeable position ->
  Py.subscript position "positionSide" = Ok side ->
  side <> VStr "SHORT" ->
  exists params,
    hedge_params position w = (Ok params, tick w)
    /\ Dict.get "side" params = Some (VStr "SELL")
    /\ Dict.get "positionSide" params = Some (VStr "SHORT").
Proof.
  intros (symbol & side' & amt & qty & Es & Ep & Ea & Eq) Eside Hne.
  assert (side' = side) by congruence. subst side'.
  apply eq_str_false in Hne.
  unfold hedge_params, bind, lift, now_ms, ret.
  rewrite Es, Ep, Ea, Eq, Hne. eexists. repeat split.
Qed.

(** ** Signing *)

Lemma keys_set (k : string) (v : value) (d : Dict.t) :
  Dict.keys (Dict.set k v d)
  = if in_dec string_dec k (Dict.keys d) then Dict.keys d
    else (Dict.keys d ++ [k])%list.
Proof.
  induction d as [|[k0 v0] d IH]; [reflexivity|].
  cbn [Dict.set]. destruct (String.eqb_spec k k0) as [->|Hne].
  - cbn [Dict.keys map fst].
    destruct (in_dec string_dec k0 (k0 :: map fst d)) as [_|Hn];
      [reflexivity | exfalso; apply Hn; now left].
  - cbn [Dict.keys map fst]. fold (Dict.keys (Dict.set k v d)).
    fold (Dict.keys d). rewrite IH.
    destruct (in_dec string_dec k (Dict.keys d)) as [Hin|Hn];
      destruct (in_dec string_dec k (k0 :: Dict.keys d)) as [Hin'|Hn'];
      try reflexivity.
    + exfalso. apply Hn'. now right.
    + exfalso. destruct Hin' as [E|Hin']; [congruence | contradiction].
Qed.

(** X14. Signing changes nothing but the signature: every other parameter
    keeps its value and its place, the signature read back is the one
    computed over the parameters before signing, and a mapping that
    already has a [signature] has it replaced where it stands. *)
Theorem signing_keeps_the_other_parameters (params : Dict.t) :
  (forall k, k <> "signature" ->
             Dict.get k (signed bot params) = Dict.get k params)
  /\ Dict.get "signature" (signed bot params)
     = Some (VStr (_generate_signature bot params))
  /\ Dict.keys (signed bot params)
     = if in_dec string_dec "signature" (Dict.keys params)
       then Dict.keys params
       else (Dict.keys params ++ ["signature"])%list.
Proof.
  unfold signed. split; [|split].
  - intros k Hk. now apply get_set_other.
  - apply get_set_same.
  - apply keys_set.
Qed.

Lemma hex_digit_is_hex (n : N) : is_hex (Bytes.hex_digit n) = true.
Proof.
  destruct n as [|p]; [reflexivity|].
  do 4 (destruct p as [p|p|]; try reflexivity).
Qed.

Lemma hex_word_is_hex (w : N) (rest : string) :
  forallb is_hex (list_ascii_of_string rest) = true ->
  forallb is_hex (list_ascii_of_string (Bytes.hex_word w rest)) = true.
Proof.
  intros Hrest. unfold Bytes.hex_word, Bytes.be32, Bytes.hex_byte.
  cbn [fold_right list_ascii_of_string forallb].
  now rewrite !hex_digit_is_hex, Hrest.
Qed.

(** X15. A signature is a text of 64 lowercase hexadecimal digits, for
    every secret and every parameter mapping. *)
Theorem signature_is_64_hex_digits (params : Dict.t) :
  String.length (_generate_signature bot params) = 64
  /\ forallb is_hex (list_ascii_of_string (_generate_signature bot params))
     = true.
Proof.
  split; [apply signature_length|].
  unfold _generate_signature, HMAC.hexdigest, SHA256.hexdigest.
  destruct (SHA256.digest_state _). unfold SHA256.state_words.
  cbn [fold_right]. repeat apply hex_word_is_hex. reflexivity.
Qed.

(** ** The decision loop, when it completes *)

Lemma select_step_ok (position : value) (adjust adjust' : list value)
      (w w' : world) :
  select_step bot position adjust w = (Ok adjust', w') ->
  exists symbol side,
    Py.subscript position "symbol" = Ok symbol
    /\ Py.subscript position "positionSide" = Ok side
    /\ (adjust' = adjust \/ adjust' = (adjust ++ [position])%list)
    /\ reads w' = reads w
    /\ sent_in (trace w')
       = (sent_in (trace w)
            ++ [(funding_request bot symbol,
                 exchange w (funding_request bot symbol))])%list.
Proof.
  intros E.
  destruct (Py.subscript position "symbol") as [symbol|e] eqn:Es;
    [|unfold select_step, bind, lift in E; rewrite Es in E; discriminate].
  destruct (Py.subscript position "positionSide") as [side|e] eqn:Ep;
    [|unfold select_step, bind, lift in E; rewrite Es, Ep in E; discriminate].
  rewrite (select_step_run bot _ _ _ adjust w Es Ep) in E.
  exists symbol, side. split; [reflexivity|]. split; [reflexivity|].
  destruct (needs_hedge side _) as [[|]|e]; inversion E; subst; clear E.
  - split; [now right|]. split; [reflexivity|].
    unfold logged. cbn [trace]. rewrite sent_in_app, sent_in_recorded.
    cbn [sent_in sent_of]. now rewrite app_nil_r.
  - split; [now left|]. split; [reflexivity | apply sent_in_recorded].
Qed.

(** X16. When the decision loop completes, the positions it has added to
    [adjust] are a subsequence of the positions it was given, in their
    order; it has sent one funding request per position, in that order,
    and has not read the clock. *)
Theorem decision_loop_selects_a_subsequence
        (positions adjust selected : list value) (w w' : world) :
  select_loop bot positions adjust w = (Ok selected, w') ->
  exists chosen symbols sent,
    selected = (adjust ++ chosen)%list
    /\ subsequence chosen positions
    /\ Forall2 (fun position symbol =>
                  Py.subscript position "symbol" = Ok symbol)
               positions symbols
    /\ sent_in (trace w') = (sent_in (trace w) ++ sent)%list
    /\ map fst sent = map (funding_request bot) symbols
    /\ reads w' = reads w.
Proof.
  revert adjust w. induction positions as [|p ps IH]; intros adjust w E.
  - inversion E; subst. exists [], [], []. rewrite !app_nil_r.
    repeat split; constructor.
  - cbn [select_loop] in E. unfold bind in E.
    destruct (select_step bot p adjust w) as [[adjust1|e] w1] eqn:E1;
      [|discriminate].
    destruct (select_step_ok _ _ _ _ _ E1)
      as (symbol & side & Es & _ & Hadj & Er & Esent).
    destruct (IH _ _ E)
      as (chosen & symbols & sent & Esel & Hsub & Hsym & Es' & Em & Er').
    set (ra := (funding_request bot symbol,
                exchange w (funding_request bot symbol))) in *.
    destruct Hadj as [-> | ->].
    + exists chosen, (symbol :: symbols), (ra :: sent).
      split; [exact Esel|]. split; [now constructor|].
      split; [now constructor|].
      split; [rewrite Es', Esent, <- app_assoc; reflexivity|].
      split; [cbn [map fst]; now rewrite Em | congruence].
    + exists (p :: chosen), (symbol :: symbols), (ra :: sent).
      split; [rewrite Esel, <- app_assoc; reflexivity|].
      split; [now constructor|].
      split; [now constructor|].
      split; [rewrite Es', Esent, <- app_assoc; reflexivity|].
      split; [cbn [map fst]; now rewrite Em | congruence].
Qed.

(** ** From the positions fetched to the orders *)

Lemma filter_r_kept (items kept : list value) :
  filter_r has_amount items = Ok kept ->
  Forall (fun p => has_amount p = Ok true) kept.
Proof.
  revert kept. induction items as [|x rest IH]; intros kept E.
  - inversion E. constructor.
  - cbn [filter_r] in E.
    destruct (has_amount x) as [b|e] eqn:Ex; [|discriminate].
    destruct (filter_r has_amount rest) as [kept'|e]; [|discriminate].
    inversion E; subst. destruct b; [constructor|]; auto.
Qed.

Lemma has_amount_true (position : value) :
  has_amount position = Ok true ->
  exists amt qty,
    Py.subscript position "positionAmt" = Ok amt /\ py_float amt = Ok qty.
Proof.
  unfold has_amount, Py.get, Py.subscript.
  destruct position; try discriminate.
  destruct (Dict.get "positionAmt" entries) as [amt|].
  - destruct (py_float amt) as [qty|e] eqn:Eq; [|discriminate]. eauto.
  - simpl. discriminate.
Qed.

Lemma get_positions_kept (w w1 : world) (found : list value) :
  get_positions bot w = (Ok (Some found), w1) ->
  Forall (fun p => has_amount p = Ok true) found.
Proof.
  rewrite get_positions_run. intros E.
  destruct (Py.truthy _); [|discriminate].
  destruct (Py.iter _) as [items|e]; [|discriminate].
  destruct (filter_r has_amount items) as [kept|e] eqn:Ek; [|discriminate].
  inversion E; subst. now apply filter_r_kept with items.
Qed.

Lemma subsequence_Forall (P : value -> Prop) (xs ys : list value) :
  subsequence xs ys -> Forall P ys -> Forall P xs.
Proof.
  induction 1; intros Hall; inversion Hall; subst; auto.
Qed.

Lemma select_loop_chosen (positions adjust selected : list value)
      (w w' : world) :
  select_loop bot positions adjust w = (Ok selected, w') ->
  exists chosen,
    selected = (adjust ++ chosen)%list /\ subsequence chosen positions.
Proof.
  revert adjust w. induction positions as [|p ps IH]; intros adjust w E.
  - inversion E; subst. exists []. rewrite app_nil_r. split; constructor.
  - cbn [select_loop] in E. unfold bind in E.
    destruct (select_step bot p adjust w) as [[adjust1|e] w1] eqn:E1;
      [|discriminate].
    destruct (select_step_ok _ _ _ _ _ E1) as (_ & _ & _ & _ & Hadj & _).
    destruct (IH _ _ E) as (chosen & Esel & Hsub).
    destruct Hadj as [-> | ->].
    + exists chosen. split; [exact Esel | now constructor].
    + exists (p :: chosen). split; [|now constructor].
      rewrite Esel, <- app_assoc. reflexivity.
Qed.

Lemma select_loop_reads_all (positions adjust selected : list value)
      (w w' : world) :
  select_loop bot positions adjust w = (Ok selected, w') ->
  Forall (fun p => exists symbol side,
                     Py.subscript p "symbol" = Ok symbol
                     /\ Py.subscript p "positionSide" = Ok side) positions.
Proof.
  revert adjust w. induction positions as [|p ps IH]; intros adjust w E;
    [constructor|].
  cbn [select_loop] in E. unfold bind in E.
  destruct (select_step bot p adjust w) as [[adjust1|e] w1] eqn:E1;
    [|discriminate].
  destruct (select_step_ok _ _ _ _ _ E1) as (symbol & side & Es & Ep & _).
  constructor; [eauto | eapply IH; eassumption].
Qed.

(** X17. In [main] the positions that reach [hedge_positions] can all be
    read by it: they come out of the filter of [get_positions] and out of
    the decision loop, so they have a symbol, a side and an amount that
    converts.  [hedge_positions] then returns one entry per position,
    whatever the exchange answers. *)
Theorem main_hedges_only_readable_positions
        (w w1 w2 w3 : world) (found selected : list value) :
  get_positions bot w = (Ok (Some found), w1) ->
  select_loop bot found [] w2 = (Ok selected, w3) ->
  Forall hedgeable selected
  /\ forall w4, exists out w5,
      hedge_positions bot selected w4 = (Ok out, w5)
      /\ List.length out = List.length selected.
Proof.
  intros Eg Es.
  assert (Hall : Forall hedgeable selected).
  { destruct (select_loop_chosen _ _ _ _ _ Es) as (chosen & -> & Hsub).
    cbn [app]. apply (subsequence_Forall _ _ _ Hsub).
    pose proof (get_positions_kept _ _ _ Eg) as Hkept.
    pose proof (select_loop_reads_all _ _ _ _ _ Es) as Hread.
    clear - Hkept Hread. induction found as [|p ps IH]; [constructor|].
    inversion Hkept; inversion Hread; subst.
    constructor; [|now apply IH].
    destruct (has_amount_true _ H2) as (amt & qty & Ea & Eq).
    destruct H6 as (symbol & side & Esym & Eside).
    now exists symbol, side, amt, qty. }
  split; [exact Hall|]. intros w4.
  unfold hedge_positions. rewrite hedge_loop_shape.
  destruct (order_loop_outputs bot hedge_params hedgeable hedge_order
              selected w4 (fun x w0 => hedge_params_run x w0) Hall)
    as (sent & out & w5 & E & _ & _ & Hlen & _).
  eauto.
Qed.

(** ** Waiting *)

Section Calm.

(** A property of events that every request and every line of log has. *)
Variable P : event -> Prop.
Hypothesis P_sent : forall r a, P (Sent r a).
Hypothesis P_logged : forall l m, P (Logged l m).

Lemma calm_make_request (method endpoint : string) (params : option Dict.t) :
  grows P (_make_request bot method endpoint params).
Proof. apply grows_make_request; auto. Qed.

Lemma calm_get_positions : grows P (get_positions bot).
Proof.
  unfold get_positions.
  apply grows_seq; [apply grows_now | intros ts].
  apply grows_seq; [apply calm_make_request | intros positions].
  destruct (Py.truthy positions); [|apply grows_ret].
  repeat (apply grows_seq; [apply grows_lift | intros ?]).
  apply grows_ret.
Qed.

Lemma calm_select_loop (positions adjust : list value) :
  grows P (select_loop bot positions adjust).
Proof.
  revert adjust; induction positions as [|p ps IH]; intros adjust; simpl.
  - apply grows_ret.
  - apply grows_seq; [|intros; apply IH].
    unfold select_step.
    do 2 (apply grows_seq; [apply grows_lift | intros ?]).
    apply grows_seq; [apply calm_make_request | intros funding].
    apply grows_seq; [apply grows_lift | intros chosen].
    destruct chosen; [|apply grows_ret].
    apply grows_seq; [now apply grows_emit | intros; apply grows_ret].
Qed.

Lemma calm_hedge_loop (positions acc : list value) :
  grows P (hedge_loop bot positions acc).
Proof.
  revert acc; induction positions as [|p ps IH]; intros acc; simpl.
  - apply grows_ret.
  - apply grows_seq; [apply grows_hedge_params | intros params].
    apply grows_seq; [apply calm_make_request | intros; apply IH].
Qed.

Lemma calm_unwind_loop (orders acc : list value) :
  grows P (unwind_loop bot orders acc).
Proof.
  revert acc; induction orders as [|o os IH]; intros acc; simpl.
  - apply grows_ret.
  - apply grows_seq; [apply grows_unwind_params | intros params].
    apply grows_seq; [apply calm_make_request | intros; apply IH].
Qed.

End Calm.

Lemma waits_of_calm (evs : list event) :
  Forall no_sleep evs -> waits_once_after_an_order evs.
Proof. now left. Qed.

Lemma waits_prefix (pre evs : list event) :
  Forall no_sleep pre ->
  waits_once_after_an_order evs ->
  waits_once_after_an_order (pre ++ evs).
Proof.
  intros Hpre [Hcalm | (before & after & -> & Hb & Ha & Ho)].
  - left. now apply Forall_app.
  - right. exists (pre ++ before)%list, after.
    split; [now rewrite app_assoc|].
    split; [now apply Forall_app|]. split; [assumption|].
    apply Exists_app. now right.
Qed.

Lemma waits_suffix (evs more : list event) :
  waits_once_after_an_order evs ->
  Forall no_sleep more ->
  waits_once_after_an_order (evs ++ more).
Proof.
  intros [Hcalm | (before & after & -> & Hb & Ha & Ho)] Hmore.
  - left. now apply Forall_app.
  - right. exists before, (after ++ more)%list.
    split; [now rewrite <- app_assoc|].
    split; [assumption|]. split; [now apply Forall_app | assumption].
Qed.

Lemma waits_bind {A B} (m : M A) (k : A -> M B) :
  grows no_sleep m ->
  (forall a, grows_with (fun _ => waits_once_after_an_order) (k a)) ->
  grows_with (fun _ => waits_once_after_an_order) (bind m k).
Proof.
  intros Hm Hk w. unfold bind.
  destruct (Hm w) as (evs1 & E1 & F1).
  destruct (m w) as [[a|e] w1]; simpl in E1.
  - destruct (Hk a w1) as (evs2 & E2 & W2).
    exists (evs1 ++ evs2)%list. split.
    + now rewrite E2, E1, app_assoc.
    + now apply waits_prefix.
  - exists evs1. simpl. split; [assumption | now left].
Qed.

Lemma waits_calm {A} (m : M A) :
  grows no_sleep m -> grows_with (fun _ => waits_once_after_an_order) m.
Proof.
  intros Hm w. destruct (Hm w) as (evs & E & F). exists evs. split; [assumption | now left].
Qed.

Lemma hedge_params_silent (position : value) (w w1 : world) (r : result Dict.t) :
  hedge_params position w = (r, w1) -> trace w1 = trace w.
Proof.
  intros E.
  destruct (trace_after _ _ _ _ _ _ (grows_hedge_params (fun _ => False) position) E)
    as (evs & Et & F).
  destruct evs as [|e evs]; [now rewrite app_nil_r in Et|].
  inversion F. contradiction.
Qed.

Lemma hedge_loop_ok_orders (p : value) (ps acc out : list value) (w w' : world) :
  hedge_loop bot (p :: ps) acc w = (Ok out, w') ->
  exists evs,
    trace w' = (trace w ++ evs)%list
    /\ Forall no_sleep evs
    /\ Exists order_event evs.
Proof.
  intros E.
  destruct (trace_after _ _ _ _ _ _
              (calm_hedge_loop no_sleep (fun _ _ => I) (fun _ _ => I) (p :: ps) acc) E)
    as (evs & Et & F).
  exists evs. split; [assumption|]. split; [assumption|].
  cbn [hedge_loop] in E. unfold bind at 1 in E.
  destruct (hedge_params p w) as [[params|e] w1] eqn:Ep; [|discriminate].
  pose proof (hedge_params_silent _ _ _ _ Ep) as E1.
  unfold bind at 1 in E. rewrite make_request_post in E.
  set (r := mkRequest POST _ _ _) in E.
  set (a := exchange w1 r) in E.
  destruct (trace_after _ _ _ _ _ _
              (calm_hedge_loop no_sleep (fun _ _ => I) (fun _ _ => I) ps _) E)
    as (evs2 & Et2 & _).
  assert (Hev : evs = (Sent r a :: match a with
                                   | Some _ => []
                                   | None => [Logged ERROR "Request failed"]
                                   end ++ evs2)%list).
  { apply (app_inv_head (trace w)). rewrite <- Et, Et2.
    unfold recorded. cbn [trace]. rewrite E1, <- app_assoc. reflexivity. }
  rewrite Hev. constructor. reflexivity.
Qed.

Lemma hedge_then_unwind_waits (a : value) (adjust : list value) :
  grows_with (fun _ => waits_once_after_an_order)
    (bind (hedge_positions bot (a :: adjust))
          (fun hedged_orders =>
             log INFO "Hedged orders" ;;;
             log INFO "Waiting for 60 seconds before unwinding..." ;;;
             sleep 60 ;;;
             unwind_orders <- unwind_positions bot hedged_orders ;;
             log INFO "Unwound orders")).
Proof.
  intros w. unfold bind at 1.
  destruct (hedge_positions bot (a :: adjust) w) as [[hedged|e] w1] eqn:Eh.
  - destruct (hedge_loop_ok_orders _ _ _ _ _ _ Eh) as (evsH & EH & FH & OH).
    unfold bind at 1. cbn [log emit].
    unfold bind at 1. cbn [log emit].
    unfold bind at 1. cbn [sleep emit]. cbn [reads trace].
    match goal with
    | |- context [bind (unwind_positions bot hedged) ?k ?w0] =>
        set (w2 := w0);
        assert (Hu : exists evsU,
                   trace (snd (bind (unwind_positions bot hedged) k w2))
                   = (trace w2 ++ evsU)%list
                   /\ Forall no_sleep evsU)
    end.
    { apply grows_seq.
      - apply (calm_unwind_loop no_sleep (fun _ _ => I) (fun _ _ => I)).
      - intros u. now apply grows_emit. }
    destruct Hu as (evsU & EU & FU).
    exists (evsH ++ [Logged INFO "Hedged orders";
                     Logged INFO "Waiting for 60 seconds before unwinding..."]
              ++ Slept 60 :: evsU)%list.
    split.
    + rewrite EU. unfold w2. cbn [trace]. rewrite EH.
      rewrite <- !app_assoc. reflexivity.
    + right.
      exists (evsH ++ [Logged INFO "Hedged orders";
                       Logged INFO "Waiting for 60 seconds before unwinding..."])%list,
        evsU.
      split; [now rewrite <- app_assoc|].
      split; [apply Forall_app; split; [assumption | repeat constructor]|].
      split; [assumption|]. apply Exists_app. now left.
  - destruct (trace_after _ _ _ _ _ _
                (calm_hedge_loop no_sleep (fun _ _ => I) (fun _ _ => I) _ _) Eh)
      as (evs & Et & F).
    exists evs. simpl. split; [assumption | now left].
Qed.

Lemma workflow_waits :
  grows_with (fun _ => waits_once_after_an_order) (workflow bot).
Proof.
  unfold workflow.
  apply waits_bind; [now apply grows_emit | intros _].
  apply waits_bind;
    [apply (calm_get_positions no_sleep (fun _ _ => I) (fun _ _ => I))
    | intros positions].
  destruct positions as [[|p ps]|];
    try (apply waits_calm; now apply grows_emit).
  apply waits_bind; [apply grows_now | intros ts].
  apply waits_bind; [now apply grows_emit | intros _].
  apply waits_bind;
    [apply (calm_select_loop no_sleep (fun _ _ => I) (fun _ _ => I))
    | intros adjust].
  apply waits_bind; [now apply grows_emit | intros _].
  destruct adjust as [|a adjust]; [apply waits_calm; now apply grows_emit|].
  apply hedge_then_unwind_waits.
Qed.

(** X18. A run waits at most once, for 60 seconds, and only after it has
    submitted an order: without a hedge order there is no wait, whatever
    the exchange answers and however the run ends. *)
Theorem run_waits_at_most_once_after_an_order (w : world) :
  exists evs,
    trace (snd (run bot w)) = (trace w ++ evs)%list
    /\ waits_once_after_an_order evs.
Proof.
  unfold run. destruct (workflow_waits w) as (evs & E & W).
  destruct (workflow bot w) as [[u|e] w']; simpl in *.
  - exists evs. auto.
  - exists (evs ++ [Logged ERROR "An error occurred"])%list.
    rewrite E, <- app_assoc. split; [reflexivity|].
    apply waits_suffix; [assumption | repeat constructor].
Qed.

(** ** Hedging, then unwinding *)

Lemma unwind_params_silent (order : value) (w w1 : world) (r : result Dict.t) :
  unwind_params order w = (r, w1) -> trace w1 = trace w.
Proof.
  intros E.
  destruct (trace_after _ _ _ _ _ _ (grows_unwind_params (fun _ => False) order) E)
    as (evs & Et & F).
  destruct evs as [|e evs]; [now rewrite app_nil_r in Et|].
  inversion F. contradiction.
Qed.

Lemma order_loop_ok_counts (params_of : value -> M Dict.t) (xs : list value) :
  (forall x w r w1, params_of x w = (r, w1) -> trace w1 = trace w) ->
  forall acc out w w',
    order_loop bot params_of xs acc w = (Ok out, w') ->
    exists sent,
      sent_in (trace w') = (sent_in (trace w) ++ sent)%list
      /\ List.length sent = List.length xs
      /\ out = (acc ++ map (fun ra => answer_value (snd ra)) sent)%list.
Proof.
  intros Hsilent. induction xs as [|x rest IH]; intros acc out w w' E.
  - inversion E; subst. exists []. now rewrite !app_nil_r.
  - cbn [order_loop] in E. unfold bind at 1 in E.
    destruct (params_of x w) as [[params|e] w1] eqn:Ep; [|discriminate].
    pose proof (Hsilent _ _ _ _ Ep) as Et.
    unfold bind at 1 in E. rewrite make_request_post in E.
    set (r := mkRequest POST _ _ _) in E.
    set (a := exchange w1 r) in E.
    destruct (IH _ _ _ _ E) as (sent & Es & Hlen & Hout).
    exists ((r, a) :: sent). split; [|split].
    + rewrite Es, sent_in_recorded, Et. now rewrite <- app_assoc.
    + simpl. now rewrite Hlen.
    + rewrite Hout. simpl. now rewrite <- app_assoc.
Qed.

(** X19. [unwind_positions] completes on the output of [hedge_positions]
    only if every hedge order was answered; it has then submitted one
    unwind order per hedge order, and both outputs have the length of the
    list of positions. *)
Theorem unwinding_completes_only_after_a_full_hedge
        (positions hedged unwound : list value) (w w1 w2 w3 : world) :
  hedge_positions bot positions w = (Ok hedged, w1) ->
  unwind_positions bot hedged w2 = (Ok unwound, w3) ->
  exists hedges unwinds,
    sent_in (trace w1) = (sent_in (trace w) ++ hedges)%list
    /\ sent_in (trace w3) = (sent_in (trace w2) ++ unwinds)%list
    /\ List.length hedges = List.length positions
    /\ List.length unwinds = List.length positions
    /\ List.length hedged = List.length positions
    /\ List.length unwound = List.length positions
    /\ Forall (fun ra => snd ra <> None) hedges.
Proof.
  intros Eh Eu. unfold hedge_positions in Eh. unfold unwind_positions in Eu.
  assert (Hnone : ~ In VNone hedged).
  { intros Hin. destruct (unwind_loop_raises bot hedged Hin [] w2) as (e & w' & E).
    congruence. }
  rewrite hedge_loop_shape in Eh. rewrite unwind_loop_shape in Eu.
  destruct (order_loop_ok_counts hedge_params positions
              (fun x w0 r w4 => hedge_params_silent x w0 w4 r) _ _ _ _ Eh)
    as (hedges & EsH & LH & OH).
  destruct (order_loop_ok_counts unwind_params hedged
              (fun x w0 r w4 => unwind_params_silent x w0 w4 r) _ _ _ _ Eu)
    as (unwinds & EsU & LU & OU).
  cbn [app] in OH, OU.
  assert (Lhedged : List.length hedged = List.length positions)
    by (rewrite OH, length_map; exact LH).
  exists hedges, unwinds. repeat split; try assumption.
  - congruence.
  - rewrite OU, length_map. congruence.
  - apply Forall_forall. intros [r a] Hin Ea. simpl in Ea. subst a.
    apply Hnone. rewrite OH.
    change VNone with ((fun ra : request * option value => answer_value (snd ra)) (r, None)).
    now apply in_map.
Qed.

(** ** The text that is signed *)

(** X20. The text that is signed does not escape its values: a value that
    contains [&name=text] gives the same text, and so the same signature,
    as a mapping with a further parameter [name]. *)
Theorem signed_text_does_not_escape_values
        (k v k' v' : string) (rest : Dict.t) :
  query_string ((k, VStr (v ++ "&" ++ k' ++ "=" ++ v')) :: rest)
  = query_string ((k, VStr v) :: (k', VStr v') :: rest)
  /\ _generate_signature bot ((k, VStr (v ++ "&" ++ k' ++ "=" ++ v')) :: rest)
     = _generate_signature bot ((k, VStr v) :: (k', VStr v') :: rest).
Proof.
  assert (E : query_string ((k, VStr (v ++ "&" ++ k' ++ "=" ++ v')) :: rest)
              = query_string ((k, VStr v) :: (k', VStr v') :: rest)).
  { rewrite !query_string_spec. cbn [spec_query_string py_str].
    now rewrite !append_assoc. }
  split; [exact E|]. unfold _generate_signature. now rewrite E.
Qed.

(** ** A run that selects nothing *)

(** X21. When [get_positions] yields no position, or the decision loop
    runs to its end without selecting one, the run submits no order, does
    not wait, and ends with exit code 0. *)
Theorem run_without_selection_exits_with_code_0
        (w w1 : world) (positions : option (list value)) :
  get_positions bot (started w) = (Ok positions, w1) ->
  match positions with
  | Some (p :: ps) =>
      exists w3,
        select_loop bot (p :: ps) [] (logged INFO "Current timestamp" (tick w1))
        = (Ok [], w3)
  | _ => True
  end ->
  exists evs w',
    run bot w = (0%Z, w')
    /\ trace w' = (trace w ++ evs)%list
    /\ Forall not_an_order evs.
Proof.
  intros Eg Hsel. unfold run.
  destruct (trace_after _ _ _ _ _ _ (get_positions_sends_no_order bot) Eg)
    as (evsA & EA & FA).
  assert (Hnone : positions = None \/ positions = Some [] ->
                  exists evs w',
                    (let (r, w') := workflow bot w in
                     match r with
                     | Ok _ => (0%Z, w')
                     | Raise _ =>
                         (1%Z, mkWorld (reads w')
                                 (trace w' ++ [Logged ERROR "An error occurred"]))
                     end) = (0%Z, w')
                    /\ trace w' = (trace w ++ evs)%list
                    /\ Forall not_an_order evs).
  { intros Hp. rewrite (workflow_no_positions bot _ _ _ Eg Hp).
    eexists _, _. split; [reflexivity|]. simpl. rewrite EA. simpl.
    rewrite <- !app_assoc. split; [reflexivity|].
    apply Forall_app; split; [repeat constructor|].
    apply Forall_app; split; [assumption | repeat constructor]. }
  destruct positions as [[|p ps]|]; [now apply Hnone; right | | now apply Hnone; left].
  destruct Hsel as [w3 Esel].
  destruct (trace_after _ _ _ _ _ _ (select_loop_sends_no_order bot _ _) Esel)
    as (evsB & EB & FB).
  rewrite (workflow_selection bot _ _ _ _ _ _ Eg Esel).
  eexists _, _. split; [reflexivity|]. simpl. rewrite EB. simpl. rewrite EA. simpl.
  rewrite <- !app_assoc. split; [reflexivity|].
  repeat (apply Forall_app; split); try assumption; repeat constructor.
Qed.

End Further.

(* ================================================================== *)
(** * The further properties at work on sample runs *)

Section FurtherOneLong.

#[local] Existing Instance Sample.one_long.

Lemma constructor_precedence_witness :
  BinanceBot_init None None None = Ok Sample.bot
  /\ keyring_get_password "BINANCE_API_KEY" "BINANCE_API_KEY"
     = Some (api_key Sample.bot)
  /\ base_url Sample.bot = "https://fapi.binance.com".
Proof.
  assert (E : BinanceBot_init None None None = Ok Sample.bot)
    by (vm_compute; reflexivity).
  split; [exact E|].
  destruct (constructor_precedence None None None Sample.bot E)
    as (_ & Hk & _ & _ & _ & _ & Hu).
  split.
  - apply Hk. now left.
  - apply Hu; [now left | reflexivity].
Defined.

Lemma method_is_case_blind_and_checked_witness :
  ascii_text "get"
  /\ ascii_text "delete"
  /\ _make_request Sample.bot "get" "/fapi/v1/time" None start
     = _make_request Sample.bot "GET" "/fapi/v1/time" None start
  /\ _make_request Sample.bot "delete" "/fapi/v1/order" None start
     = (Raise ValueError, start).
Proof.
  assert (Hg : ascii_text "get") by (repeat constructor).
  assert (Hd : ascii_text "delete") by (repeat constructor).
  split; [exact Hg|]. split; [exact Hd|]. split.
  - exact (proj1 (method_is_case_blind_and_checked Sample.bot
                    "get" "/fapi/v1/time" None start Hg) eq_refl).
  - apply (proj2 (proj2 (method_is_case_blind_and_checked Sample.bot
                           "delete" "/fapi/v1/order" None start Hd)));
      discriminate.
Defined.

Lemma each_order_has_its_own_timestamp_witness :
  Forall hedgeable Sample.two_positions
  /\ exists sent out w',
      hedge_positions Sample.bot Sample.two_positions start = (Ok out, w')
      /\ sent_in (trace w') = (sent_in (trace start) ++ sent)%list
      /\ reads w' = 2
      /\ forall i r a,
          nth_error sent i = Some (r, a) ->
          timestamp_of r = Some (VInt (clock_ms (reads start + i))).
Proof.
  split; [exact two_positions_hedgeable|].
  exact (proj1 (each_order_has_its_own_timestamp Sample.bot)
           Sample.two_positions start two_positions_hedgeable).
Defined.

Lemma sideless_is_not_hedgeable : ~ hedgeable Cases.sideless.
Proof.
  intros (symbol & side & amt & qty & _ & Ep & _). discriminate Ep.
Defined.

Lemma hedge_positions_stops_at_unreadable_position_witness :
  Forall hedgeable Sample.two_positions
  /\ ~ hedgeable Cases.sideless
  /\ exists e sent w',
      hedge_positions Sample.bot
        (Sample.two_positions ++ Cases.sideless :: Sample.two_positions) start
      = (Raise e, w')
      /\ sent_in (trace w') = (sent_in (trace start) ++ sent)%list
      /\ Forall2 (order_for Sample.bot hedge_order) Sample.two_positions sent.
Proof.
  split; [exact two_positions_hedgeable|].
  split; [exact sideless_is_not_hedgeable|].
  exact (hedge_positions_stops_at_unreadable_position Sample.bot
           Sample.two_positions Sample.two_positions Cases.sideless start
           two_positions_hedgeable sideless_is_not_hedgeable).
Defined.

Lemma rates_inside_the_band_select_nothing_witness :
  Dict.get "lastFundingRate" [("symbol", VStr "BTCUSDT")] = None
  /\ needs_hedge (VStr "LONG") (VDict [("symbol", VStr "BTCUSDT")]) = Ok false.
Proof.
  split; [reflexivity|].
  exact (proj1 (proj2 (rates_inside_the_band_select_nothing (VStr "LONG")))
           [("symbol", VStr "BTCUSDT")] eq_refl).
Defined.

Lemma one_way_is_hedgeable : hedgeable Cases.one_way_position.
Proof.
  exists (VStr "BTCUSDT"), (VStr "BOTH"), (VStr "-3"),
    (S754_finite true 6755399441055744 (-51)).
  repeat split; vm_compute; reflexivity.
Defined.

Lemma hedge_sells_for_every_side_but_short_witness :
  hedgeable Cases.one_way_position
  /\ Py.subscript Cases.one_way_position "positionSide" = Ok (VStr "BOTH")
  /\ VStr "BOTH" <> VStr "SHORT"
  /\ exists params,
      hedge_params Cases.one_way_position start = (Ok params, tick start)
      /\ Dict.get "side" params = Some (VStr "SELL")
      /\ Dict.get "positionSide" params = Some (VStr "SHORT").
Proof.
  assert (Hne : VStr "BOTH" <> VStr "SHORT") by discriminate.
  split; [exact one_way_is_hedgeable|]. split; [reflexivity|].
  split; [exact Hne|].
  exact (hedge_sells_for_every_side_but_short Cases.one_way_position
           (VStr "BOTH") start one_way_is_hedgeable eq_refl Hne).
Defined.

Lemma main_hedges_only_readable_positions_witness :
  let found := [Sample.position "BTCUSDT" "LONG" "1.0"] in
  let w1 := snd (get_positions Sample.bot start) in
  let w3 := snd (select_loop Sample.bot found [] w1) in
  get_positions Sample.bot start = (Ok (Some found), w1)
  /\ select_loop Sample.bot found [] w1 = (Ok found, w3)
  /\ Forall hedgeable found.
Proof.
  intros found w1 w3.
  assert (E1 : get_positions Sample.bot start = (Ok (Some found), w1))
    by (vm_compute; reflexivity).
  assert (E2 : select_loop Sample.bot found [] w1 = (Ok found, w3))
    by (vm_compute; reflexivity).
  split; [exact E1|]. split; [exact E2|].
  exact (proj1 (main_hedges_only_readable_positions Sample.bot
                  start w1 w1 w3 found found E1 E2)).
Defined.

Lemma unwinding_completes_only_after_a_full_hedge_witness :
  let positions := [Sample.position "BTCUSDT" "LONG" "1.0"] in
  let hedged := fst (hedge_positions Sample.bot positions start) in
  let w1 := snd (hedge_positions Sample.bot positions start) in
  exists hedged' unwound w3,
    hedge_positions Sample.bot positions start = (Ok hedged', w1)
    /\ unwind_positions Sample.bot hedged' w1 = (Ok unwound, w3)
    /\ List.length unwound = 1.
Proof.
  intros positions hedged w1.
  destruct (hedge_positions Sample.bot positions start) as [rh wh] eqn:Eh.
  assert (Eh' : exists hedged', rh = Ok hedged'
                                /\ exists unwound w3,
                                    unwind_positions Sample.bot hedged' wh
                                    = (Ok unwound, w3)).
  { vm_compute in Eh. inversion Eh; subst.
    eexists. split; [reflexivity|]. eexists _, _. vm_compute. reflexivity. }
  destruct Eh' as (hedged' & -> & unwound & w3 & Eu).
  exists hedged', unwound, w3. subst w1. cbn [snd].
  split; [reflexivity|]. split; [exact Eu|].
  destruct (unwinding_completes_only_after_a_full_hedge Sample.bot
              positions hedged' unwound start wh wh w3 Eh Eu)
    as (hedges & unwinds & _ & _ & _ & _ & _ & Hlen & _).
  exact Hlen.
Defined.

End FurtherOneLong.

Section FurtherNoCredentials.

#[local] Existing Instance Cases.no_credentials.


End FurtherNoCredentials.

Section FurtherNoPositions.

#[local] Existing Instance Sample.no_positions.

Lemma get_positions_none_for_failure_and_empty_witness :
  exchange (tick start) (positions_request Sample.bot (clock_ms (reads start)))
  = Some (VList [])
  /\ fst (get_positions Sample.bot start) = Ok None.
Proof.
  assert (Ea : exchange (tick start)
                        (positions_request Sample.bot (clock_ms (reads start)))
               = Some (VList []))
    by (vm_compute; reflexivity).
  split; [exact Ea|].
  rewrite (get_positions_none_for_failure_and_empty Sample.bot start
             (or_intror (or_introl Ea))).
  reflexivity.
Defined.

End FurtherNoPositions.

Lemma get_positions_raises_on_malformed_answer_witness :
  (@exchange Cases.refused (tick start)
             (@positions_request Cases.refused Sample.bot
                                 (@clock_ms Cases.refused (reads start)))
   = Some (VDict Cases.error_object)
   /\ fst (@get_positions Cases.refused Sample.bot start) = Raise AttributeError)
  /\ (@exchange Cases.garbled (tick start)
                (@positions_request Cases.garbled Sample.bot
                                    (@clock_ms Cases.garbled (reads start)))
      = Some (VList Cases.garbled_positions)
      /\ Exists (fun p => exists e, @amount Cases.garbled p = Raise e)
                Cases.garbled_positions
      /\ exists e, fst (@get_positions Cases.garbled Sample.bot start) = Raise e).
Proof.
  split.
  - assert (Ea : @exchange Cases.refused (tick start)
                   (@positions_request Cases.refused Sample.bot
                                       (@clock_ms Cases.refused (reads start)))
                 = Some (VDict Cases.error_object))
      by (vm_compute; reflexivity).
    split; [exact Ea|].
    exact (proj1 (@get_positions_raises_on_malformed_answer
                    Cases.refused Sample.bot start) _ _ Ea).
  - assert (Ea : @exchange Cases.garbled (tick start)
                   (@positions_request Cases.garbled Sample.bot
                                       (@clock_ms Cases.garbled (reads start)))
                 = Some (VList Cases.garbled_positions))
      by (vm_compute; reflexivity).
    assert (Hex : Exists (fun p => exists e, @amount Cases.garbled p = Raise e)
                         Cases.garbled_positions).
    { apply Exists_cons_tl, Exists_cons_hd. exists ValueError.
      vm_compute. reflexivity. }
    split; [exact Ea|]. split; [exact Hex|].
    exact (proj2 (@get_positions_raises_on_malformed_answer
                    Cases.garbled Sample.bot start) _ Ea Hex).
Defined.

Section FurtherOneWay.

#[local] Existing Instance Cases.one_way.

Lemma other_sides_are_never_selected_witness :
  Py.subscript Cases.one_way_position "symbol" = Ok (VStr "BTCUSDT")
  /\ Py.subscript Cases.one_way_position "positionSide" = Ok (VStr "BOTH")
  /\ VStr "BOTH" <> VStr "LONG"
  /\ VStr "BOTH" <> VStr "SHORT"
  /\ exchange start (funding_request Sample.bot (VStr "BTCUSDT")) = None
  /\ fst (select_step Sample.bot Cases.one_way_position [] start) = Ok [].
Proof.
  assert (Hl : VStr "BOTH" <> VStr "LONG") by discriminate.
  assert (Hs : VStr "BOTH" <> VStr "SHORT") by discriminate.
  split; [reflexivity|]. split; [reflexivity|].
  split; [exact Hl|]. split; [exact Hs|].
  split; [vm_compute; reflexivity|].
  rewrite (other_sides_are_never_selected Sample.bot Cases.one_way_position
             (VStr "BTCUSDT") (VStr "BOTH") [] start eq_refl eq_refl Hl Hs).
  reflexivity.
Defined.

End FurtherOneWay.

Section FurtherQuiet.

#[local] Existing Instance Sample.quiet.

Lemma decision_loop_selects_a_subsequence_witness :
  let w' := snd (select_loop Sample.bot Sample.two_positions [] start) in
  select_loop Sample.bot Sample.two_positions [] start = (Ok [], w')
  /\ exists chosen symbols sent,
      [] = ([] ++ chosen)%list
      /\ subsequence chosen Sample.two_positions
      /\ Forall2 (fun position symbol =>
                    Py.subscript position "symbol" = Ok symbol)
                 Sample.two_positions symbols
      /\ sent_in (trace w') = (sent_in (trace start) ++ sent)%list
      /\ map fst sent = map (funding_request Sample.bot) symbols
      /\ reads w' = reads start.
Proof.
  intros w'.
  assert (E : select_loop Sample.bot Sample.two_positions [] start = (Ok [], w'))
    by (vm_compute; reflexivity).
  split; [exact E|].
  exact (decision_loop_selects_a_subsequence Sample.bot
           Sample.two_positions [] [] start w' E).
Defined.

Lemma run_without_selection_exits_with_code_0_witness :
  let w1 := snd (get_positions Sample.bot (started start)) in
  get_positions Sample.bot (started start)
  = (Ok (Some Sample.two_positions), w1)
  /\ (exists w3,
        select_loop Sample.bot Sample.two_positions []
                    (logged INFO "Current timestamp" (tick w1))
        = (Ok [], w3))
  /\ exists evs w',
      run Sample.bot start = (0%Z, w')
      /\ trace w' = (trace start ++ evs)%list
      /\ Forall not_an_order evs.
Proof.
  intros w1.
  assert (E1 : get_positions Sample.bot (started start)
               = (Ok (Some Sample.two_positions), w1))
    by (vm_compute; reflexivity).
  assert (E2 : exists w3,
             select_loop Sample.bot Sample.two_positions []
                         (logged INFO "Current timestamp" (tick w1))
             = (Ok [], w3))
    by (eexists; vm_compute; reflexivity).
  split; [exact E1|]. split; [exact E2|].
  exact (run_without_selection_exits_with_code_0 Sample.bot start w1
           (Some Sample.two_positions) E1 E2).
Defined.

End FurtherQuiet.
